(** * Eden: the local content-addressed store and the fake edenfs daemon

    A shallow embedding of [eden/fs/store/LocalStore.cpp] and of
    [eden/integration/helpers/fake_edenfs.cpp], with the properties of the
    design document that concern them.

    Bytes are [Byte.byte]; byte strings ([folly::ByteRange], the contents of
    a [std::string] written to the store) are [list byte]; a chained
    [folly::IOBuf] is a list of chunks.  [uint64_t] and [size_t] values are
    [N] with the 64-bit truncation written where the code stores them.  A
    key space of the store is a [gmap] from key bytes to value bytes. *)

From Stdlib Require Import NArith ZArith Strings.Byte String Ascii List Decimal DecimalString DecimalN.
From stdpp Require Import base decidable countable option list gmap.

Local Open Scope N_scope.

(** ** Bytes *)

Module Bytes.

#[global] Instance byte_eq_dec : EqDecision byte := Byte.byte_eq_dec.

#[global] Instance byte_countable : Countable byte :=
  inj_countable Byte.to_N Byte.of_N Byte.of_to_N.

(** The low eight bits of [n] as a byte (a [uint8_t] store). *)
Definition of_N (n : N) : byte := default x00 (Byte.of_N (n mod 256)).

(** [folly::Endian::big] followed by [memcpy]: the [len] low-order bytes
    of [n], most significant first. *)
Fixpoint be_encode (len : nat) (n : N) : list byte :=
  match len with
  | O => []
  | S k => of_N (n / 256 ^ N.of_nat k) :: be_encode k n
  end.

(** Reading a big-endian unsigned integer. *)
Definition be_decode (bs : list byte) : N :=
  fold_left (fun acc b => acc * 256 + Byte.to_N b) bs 0.

(** The bytes of a C string literal. *)
Definition of_string (s : string) : list byte := list_byte_of_string s.

(** [folly::hexlify]: two lower-case hexadecimal digits per byte. *)
Definition hex_digit (n : N) : ascii :=
  ascii_of_N (if n <? 10 then 48 + n else 87 + n).

Fixpoint hexlify (bs : list byte) : string :=
  match bs with
  | [] => EmptyString
  | b :: rest =>
      String (hex_digit (Byte.to_N b / 16))
        (String (hex_digit (Byte.to_N b mod 16)) (hexlify rest))
  end.

End Bytes.

(** [folly::to<std::string>] of an unsigned integer: its decimal digits,
    without sign or padding. *)
Definition to_string (n : N) : string := NilEmpty.string_of_uint (N.to_uint n).

(** ** SHA-1 *)

Module SHA1.

Definition w32 (x : N) : N := x mod 2 ^ 32.

Definition add32 (x y : N) : N := w32 (x + y).

Definition rotl32 (n x : N) : N :=
  w32 (N.lor (N.shiftl x n) (N.shiftr x (32 - n))).

Definition not32 (x : N) : N := N.lxor x 4294967295.

(** Padding: the bit 1, zero bits up to 56 mod 64 bytes, and the length
    of the message in bits as a 64-bit big-endian integer. *)
Definition pad (msg : list byte) : list byte :=
  let l := length msg in
  msg ++ x80 :: repeat x00 ((119 - l mod 64) mod 64)%nat
      ++ Bytes.be_encode 8 (8 * N.of_nat l).

(** Splitting into runs of [n] elements. *)
Fixpoint chunks {A} (fuel n : nat) (l : list A) : list (list A) :=
  match fuel with
  | O => []
  | S f =>
      match l with
      | [] => []
      | _ => take n l :: chunks f n (drop n l)
      end
  end.

Definition words (block : list byte) : list N :=
  map Bytes.be_decode (chunks 16 4 block).

(** The message schedule, most recent word first. *)
Fixpoint schedule (n : nat) (w : list N) : list N :=
  match n with
  | O => w
  | S k =>
      let x := N.lxor (N.lxor (nth 2 w 0) (nth 7 w 0))
                      (N.lxor (nth 13 w 0) (nth 15 w 0)) in
      schedule k (rotl32 1 x :: w)
  end.

Definition State : Type := N * N * N * N * N.

Definition f_k (t : nat) (b c d : N) : N * N :=
  if (t <? 20)%nat then
    (N.lor (N.land b c) (N.land (not32 b) d), 1518500249)
  else if (t <? 40)%nat then
    (N.lxor (N.lxor b c) d, 1859775393)
  else if (t <? 60)%nat then
    (N.lor (N.lor (N.land b c) (N.land b d)) (N.land c d), 2400959708)
  else
    (N.lxor (N.lxor b c) d, 3395469782).

Fixpoint rounds (t : nat) (ws : list N) (s : State) : State :=
  match ws with
  | [] => s
  | w :: rest =>
      let '(a, b, c, d, e) := s in
      let '(f, k) := f_k t b c d in
      let temp := add32 (add32 (add32 (add32 (rotl32 5 a) f) e) k) w in
      rounds (S t) rest (temp, a, rotl32 30 b, c, d)
  end.

Definition compress (h : State) (block : list byte) : State :=
  let ws := rev (schedule 64 (rev (words block))) in
  let '(a, b, c, d, e) := rounds 0 ws h in
  let '(h0, h1, h2, h3, h4) := h in
  (add32 h0 a, add32 h1 b, add32 h2 c, add32 h3 d, add32 h4 e).

Definition init : State :=
  (1732584193, 4023233417, 2562383102, 271733878, 3285377520).

Definition digest (msg : list byte) : State :=
  let p := pad msg in
  fold_left compress (chunks (length p) 64 p) init.

Definition output (h : State) : list byte :=
  let '(h0, h1, h2, h3, h4) := h in
  Bytes.be_encode 4 h0 ++ Bytes.be_encode 4 h1 ++ Bytes.be_encode 4 h2
    ++ Bytes.be_encode 4 h3 ++ Bytes.be_encode 4 h4.

End SHA1.

(** ** The object model *)

(** [std::invalid_argument], the one exception type the store raises. *)
Inductive exception : Type :=
  | invalid_argument (what : string).

(** The outcome of a computation that may throw; a completed
    [folly::Future] holds one ([folly::makeFutureWith] captures the
    exception of the wrapped call). *)
Definition Try (A : Type) : Type := exception + A.
Definition Future (A : Type) : Type := Try A.

Definition then_ {A B} (f : Future A) (k : A -> Try B) : Future B :=
  match f with
  | inl e => inl e
  | inr a => k a
  end.

(** A 20-byte object identifier: [getBytes] is the [std::array] of
    [RAW_SIZE] bytes, and [Hash_valid] says that it has that many. *)
Record Hash : Type := mkHash { getBytes : list byte }.

Definition RAW_SIZE : nat := 20.

Definition Hash_valid (h : Hash) : Prop := length (getBytes h) = RAW_SIZE.

#[global] Instance Hash_eq_dec : EqDecision Hash.
Proof. solve_decision. Defined.

(** Modelled from the spec: [Hash()] of the absent [Hash.h], the
    distinguished zero hash that stands for an uncomputed identifier. *)
Definition Hash_zero : Hash := mkHash (repeat x00 RAW_SIZE).

(** Modelled from the spec: [Hash::sha1] of the absent [Hash.cpp], the
    sha-1 digest of a byte sequence. *)
Definition Hash_sha1 (data : list byte) : Hash :=
  mkHash (SHA1.output (SHA1.digest data)).

(** Modelled from the spec: [Hash::toString] of the absent [Hash.cpp], the
    byte-wise hexadecimal rendering. *)
Definition Hash_toString (h : Hash) : string := Bytes.hexlify (getBytes h).

(** A chained [folly::IOBuf]: its buffers in chain order. *)
Definition IOBuf : Type := list (list byte).

Definition coalesce (buf : IOBuf) : list byte := concat buf.

Definition computeChainDataLength (buf : IOBuf) : N :=
  fold_right (fun chunk n => N.of_nat (length chunk) + n) 0 buf.

Record Blob : Type := mkBlob { Blob_getHash : Hash; getContents : IOBuf }.

Inductive TreeEntryType : Type := REGULAR_FILE | EXECUTABLE_FILE | SYMLINK | TREE.

Record TreeEntry : Type := mkTreeEntry {
  getName : list byte;
  getMode : N;
  getEntryHash : Hash;
  getType : TreeEntryType
}.

Record Tree : Type := mkTree { Tree_getHash : Hash; getTreeEntries : list TreeEntry }.

Record BlobMetadata : Type := mkBlobMetadata { metadata_sha1 : Hash; metadata_size : N }.

(** ** Git framing *)

(** Modelled from the spec: the octal digits of a mode, as [GitTreeSerializer]
    of the absent [GitTree.cpp] prints them; [fuel] bounds the number of
    digits. *)
Fixpoint octal (fuel : nat) (n : N) (acc : list byte) : list byte :=
  match fuel with
  | O => acc
  | S f =>
      let acc' := Bytes.of_N (48 + n mod 8) :: acc in
      if n / 8 =? 0 then acc' else octal f (n / 8) acc'
  end.

(** Modelled from the spec: [GitTreeSerializer] of the absent [GitTree.cpp].
    An entry is its mode in octal, a space, the name, a NUL and the 20 bytes
    of the child hash; [finalize] prepends the header [tree <len>\0]. *)
Definition GitTreeSerializer_addEntry (body : list byte) (e : TreeEntry) : list byte :=
  body ++ octal (S (N.size_nat (getMode e))) (getMode e) []
       ++ x20 :: getName e ++ x00 :: getBytes (getEntryHash e).

(** Modelled from the spec: [GitTreeSerializer::finalize] of the absent
    [GitTree.cpp], the header [tree <len>\0] and then the entries. *)
Definition GitTreeSerializer_finalize (body : list byte) : list byte :=
  Bytes.of_string "tree " ++ Bytes.of_string (to_string (N.of_nat (length body)))
    ++ x00 :: body.

(** The git-style blob prefix of [putBlob]: [folly::to<string>("blob ", n)]
    with a NUL pushed at its end. *)
Definition blob_prefix (n : N) : list byte :=
  Bytes.of_string ("blob " ++ to_string n) ++ [x00].

(** Modelled from the spec: the readers that [deserializeGitBlob] of the
    absent [GitBlob.cpp] is made of.  [stripPrefix] drops an expected
    prefix. *)
Fixpoint stripPrefix (p bs : list byte) : option (list byte) :=
  match p, bs with
  | [], _ => Some bs
  | a :: p', b :: bs' => if decide (a = b) then stripPrefix p' bs' else None
  | _ :: _, [] => None
  end.

(** Modelled from the spec: reading up to the NUL of the header of the
    absent [GitBlob.cpp], the bytes before it and those after it. *)
Fixpoint readTerminatedString (bs : list byte) : option (list byte * list byte) :=
  match bs with
  | [] => None
  | b :: rest =>
      if decide (b = x00) then Some ([], rest)
      else match readTerminatedString rest with
           | Some (s, tl) => Some (b :: s, tl)
           | None => None
           end
  end.

(** Modelled from the spec: the decimal length in the header read by the
    absent [GitBlob.cpp]; at least one digit, and digits only. *)
Definition parseSize (digits : list byte) : option N :=
  match digits with
  | [] => None
  | _ => N.of_uint <$> NilEmpty.uint_of_string (string_of_list_byte digits)
  end.

(** Modelled from the spec: [deserializeGitBlob] of the absent
    [GitBlob.cpp].  The stored form is [blob <len>\0<bytes>]; anything else
    is malformed framing and fails with a parse error. *)
Definition deserializeGitBlob (hash : Hash) (data : list byte) : Try Blob :=
  match stripPrefix (Bytes.of_string "blob ") data with
  | None => inl (invalid_argument "Contents did not start with expected header.")
  | Some rest =>
      match readTerminatedString rest with
      | None => inl (invalid_argument "Header is not terminated.")
      | Some (sizeStr, contents) =>
          match parseSize sizeStr with
          | None => inl (invalid_argument "Header does not hold a size.")
          | Some contentSize =>
              if contentSize =? N.of_nat (length contents)
              then inr (mkBlob hash [contents])
              else inl (invalid_argument "Size in header should match contents")
          end
      end
  end.

(** ** The key-value engine *)

Inductive KeySpace : Type :=
  | BlobFamily
  | BlobMetaDataFamily
  | TreeFamily
  | HgProxyHashFamily
  | HgCommitToTreeFamily.

#[global] Instance KeySpace_eq_dec : EqDecision KeySpace.
Proof. solve_decision. Defined.

(** A [StoreResult] is present (a byte range) or absent. *)
Definition StoreResult : Type := option (list byte).

Definition isValid (r : StoreResult) : bool := bool_decide (is_Some r).

Module Engine.

(** Modelled from the spec: the engine behind the pure virtual members of
    [LocalStore] ([get], [put], [hasKey], [clearKeySpace],
    [compactKeySpace], [beginWrite]) and of [LocalStore::WriteBatch]
    ([put], [flush]), implemented by subclasses that are absent.  Each key
    space is a finite map from key bytes to value bytes. *)
Definition t : Type := KeySpace -> gmap (list byte) (list byte).

(** Modelled from the spec: a store of the absent engine with no key. *)
Definition empty : t := fun _ => ∅.

(** Modelled from the spec: [get] of the absent engine; a missing key is
    an absent result, not an error. *)
Definition get (keySpace : KeySpace) (key : list byte) (s : t) : StoreResult :=
  s keySpace !! key.

(** Modelled from the spec: [hasKey] of the absent engine. *)
Definition hasKey (keySpace : KeySpace) (key : list byte) (s : t) : bool :=
  isValid (get keySpace key s).

(** Modelled from the spec: [put] of the absent engine, atomic for a
    single key. *)
Definition put (keySpace : KeySpace) (key value : list byte) (s : t) : t :=
  fun ks => if decide (ks = keySpace) then <[key := value]> (s ks) else s ks.

(** Modelled from the spec: [clearKeySpace] of the absent engine erases
    one key space. *)
Definition clearKeySpace (keySpace : KeySpace) (s : t) : t :=
  fun ks => if decide (ks = keySpace) then ∅ else s ks.

(** Modelled from the spec: [compactKeySpace] of the absent engine; a
    compaction does not change what is read. *)
Definition compactKeySpace (keySpace : KeySpace) (s : t) : t := s.

(** Modelled from the spec: a put held by a write batch of the absent
    engine. *)
Record Write : Type := mkWrite {
  write_keySpace : KeySpace;
  write_key : list byte;
  write_value : list byte
}.

(** Modelled from the spec: a write batch of the absent engine, the puts
    it groups, oldest first. *)
Definition WriteBatch : Type := list Write.

(** Modelled from the spec: [beginWrite] of the absent engine; the size is
    a hint for the buffer. *)
Definition beginWrite (bufSize : N) : WriteBatch := [].

(** Modelled from the spec: [WriteBatch::put] of the absent engine. *)
Definition batch_put (keySpace : KeySpace) (key value : list byte)
    (b : WriteBatch) : WriteBatch :=
  b ++ [mkWrite keySpace key value].

(** Modelled from the spec: the scatter-gather [WriteBatch::put] of the
    absent engine; the value is the slices end to end. *)
Definition batch_put_slices (keySpace : KeySpace) (key : list byte)
    (slices : list (list byte)) (b : WriteBatch) : WriteBatch :=
  batch_put keySpace key (concat slices) b.

(** Modelled from the spec: [WriteBatch::flush] of the absent engine
    applies the puts of the batch, in order, in one step for readers. *)
Definition flush (b : WriteBatch) (s : t) : t :=
  fold_left (fun s w => put (write_keySpace w) (write_key w) (write_value w) s) b s.

End Engine.

Abbreviation LocalStore := Engine.t.
Abbreviation WriteBatch := Engine.WriteBatch.

(** ** LocalStore.cpp *)

Module SerializedBlobMetadata.

Definition SIZE : nat := 8 + RAW_SIZE.

(** The serialized data is the size (8 bytes, big endian) followed by the
    hash (20 bytes). *)
Definition serialize (contentsHash : Hash) (blobSize : N) : list byte :=
  Bytes.be_encode 8 blobSize ++ getBytes contentsHash.

(** [SerializedBlobMetadata(const BlobMetadata&)]. *)
Definition of_metadata (metadata : BlobMetadata) : list byte :=
  serialize (metadata_sha1 metadata) (metadata_size metadata).

(** The message of [parse], put together by [folly::sformat]. *)
Definition unexpected_size (blobID : Hash) (size : nat) : string :=
  ("Blob metadata for " ++ Hash_toString blobID ++ " had unexpected size "
     ++ to_string (N.of_nat size) ++ ". Could not deserialize.")%string.

(** [Hash{bytes}] is given the 20 bytes that are left after the size, so
    its own check of the length passes. *)
Definition parse (blobID : Hash) (bytes : list byte) : Try BlobMetadata :=
  if decide (length bytes ≠ SIZE) then
    inl (invalid_argument (unexpected_size blobID (length bytes)))
  else
    let blobSizeBE := take 8 bytes in
    let bytes := drop 8 bytes in
    let contentsHash := mkHash bytes in
    inr (mkBlobMetadata contentsHash (Bytes.be_decode blobSizeBE)).

End SerializedBlobMetadata.

Inductive Persistence : Type := Ephemeral | Persistent.

#[global] Instance Persistence_eq_dec : EqDecision Persistence.
Proof. solve_decision. Defined.

Record KeySpaceRecord : Type := mkKeySpaceRecord {
  keySpace : KeySpace;
  persistence : Persistence
}.

Definition kKeySpaceRecords : list KeySpaceRecord :=
  [ mkKeySpaceRecord BlobFamily Ephemeral;
    mkKeySpaceRecord BlobMetaDataFamily Ephemeral;
    mkKeySpaceRecord TreeFamily Persistent;
    mkKeySpaceRecord HgProxyHashFamily Persistent;
    mkKeySpaceRecord HgCommitToTreeFamily Ephemeral ].

Definition clearCachesAndCompactAll (s : LocalStore) : LocalStore :=
  fold_left
    (fun s ks =>
       let s := if decide (persistence ks = Ephemeral)
                then Engine.clearKeySpace (keySpace ks) s else s in
       Engine.compactKeySpace (keySpace ks) s)
    kKeySpaceRecords s.

Definition clearCaches (s : LocalStore) : LocalStore :=
  fold_left
    (fun s ks =>
       if decide (persistence ks = Ephemeral)
       then Engine.clearKeySpace (keySpace ks) s else s)
    kKeySpaceRecords s.

Definition compactStorage (s : LocalStore) : LocalStore :=
  fold_left (fun s ks => Engine.compactKeySpace (keySpace ks) s) kKeySpaceRecords s.

Definition get (keySpace : KeySpace) (id : Hash) (s : LocalStore) : StoreResult :=
  Engine.get keySpace (getBytes id) s.

Definition getFuture (keySpace : KeySpace) (key : list byte) (s : LocalStore)
    : Future StoreResult :=
  inr (Engine.get keySpace key s).

Definition getBatch (keySpace : KeySpace) (keys : list (list byte)) (s : LocalStore)
    : Future (list StoreResult) :=
  inr (map (fun key => Engine.get keySpace key s) keys).

Definition getBlob (id : Hash) (s : LocalStore) : Future (option Blob) :=
  then_ (getFuture BlobFamily (getBytes id) s)
    (fun data =>
       match data with
       | None => inr None
       | Some buf => then_ (deserializeGitBlob id buf) (fun b => inr (Some b))
       end).

Definition getBlobMetadata (id : Hash) (s : LocalStore) : Future (option BlobMetadata) :=
  then_ (getFuture BlobMetaDataFamily (getBytes id) s)
    (fun data =>
       match data with
       | None => inr None
       | Some bytes =>
           then_ (SerializedBlobMetadata.parse id bytes) (fun m => inr (Some m))
       end).

Definition serializeTree (tree : Tree) : Hash * list byte :=
  let treeBuf :=
    GitTreeSerializer_finalize
      (fold_left GitTreeSerializer_addEntry (getTreeEntries tree) []) in
  let id := Tree_getHash tree in
  let id := if decide (id = Hash_zero) then Hash_sha1 treeBuf else id in
  (id, treeBuf).

Definition hasKey (keySpace : KeySpace) (id : Hash) (s : LocalStore) : bool :=
  Engine.hasKey keySpace (getBytes id) s.

Definition put (keySpace : KeySpace) (id : Hash) (value : list byte)
    (s : LocalStore) : LocalStore :=
  Engine.put keySpace (getBytes id) value s.

Definition putTree (tree : Tree) (s : LocalStore) : Hash * LocalStore :=
  let serialized := serializeTree tree in
  let treeData := snd serialized in
  let id := fst serialized in
  (id, put TreeFamily id treeData s).

Definition WriteBatch_putTree (tree : Tree) (b : WriteBatch) : Hash * WriteBatch :=
  let serialized := serializeTree tree in
  let treeData := snd serialized in
  let id := fst serialized in
  (id, Engine.batch_put TreeFamily (getBytes id) treeData b).

(** The loop over [Cursor::peekBytes]: each buffer of the chain that holds
    data, in order; [peekBytes] steps over empty buffers and is empty only
    at the end of the chain. *)
Fixpoint peekSlices (contents : IOBuf) : list (list byte) :=
  match contents with
  | [] => []
  | bytes :: rest =>
      match bytes with
      | [] => peekSlices rest
      | _ => bytes :: peekSlices rest
      end
  end.

Definition WriteBatch_putBlob (id : Hash) (blob : Blob) (b : WriteBatch)
    : BlobMetadata * WriteBatch :=
  let contents := getContents blob in
  let metadata :=
    mkBlobMetadata (Hash_sha1 (coalesce contents)) (computeChainDataLength contents) in
  let metadataBytes := SerializedBlobMetadata.of_metadata metadata in
  let hashSlice := getBytes id in
  let prefix := blob_prefix (computeChainDataLength contents) in
  let bodySlices := prefix :: peekSlices contents in
  let b := Engine.batch_put_slices BlobFamily hashSlice bodySlices b in
  let b := Engine.batch_put BlobMetaDataFamily hashSlice metadataBytes b in
  (metadata, b).

Definition putBlob (id : Hash) (blob : Blob) (s : LocalStore)
    : BlobMetadata * LocalStore :=
  let batch := Engine.beginWrite (computeChainDataLength (getContents blob) + 64) in
  let '(result, batch) := WriteBatch_putBlob id blob batch in
  (result, Engine.flush batch s).

(** ** fake_edenfs.cpp *)

Module FakeEdenfs.

Local Open Scope string_scope.

Inductive fb_status : Type := STARTING | ALIVE | STOPPING.

Inductive LogLevel : Type := INFO | ERR.

(** The daemon: the [FakeEdenServer], the [FakeEdenServiceHandler] that
    points to it, the event base of [run], and the lines written with
    [XLOG], oldest first. *)
Record State : Type := mkState {
  honorStop_ : bool;
  status_ : fb_status;
  loopTerminated : bool;
  xlog : list (LogLevel * string)
}.

(** [FakeEdenServer()] with its handler: [honorStop_{true}],
    [status_{fb_status::ALIVE}]. *)
Definition initial : State := mkState true ALIVE false [].

(** A call on the daemon: it may throw, and it leaves a state. *)
Definition M (A : Type) : Type := State -> Try A * State.

Definition ret {A} (a : A) : M A := fun s => (inr a, s).

Definition bind {A B} (m : M A) (k : A -> M B) : M B :=
  fun s =>
    match m s with
    | (inl e, s') => (inl e, s')
    | (inr a, s') => k a s'
    end.

Definition throw {A} (e : exception) : M A := fun s => (inl e, s).

Notation "m >> k" := (bind m (fun _ => k))
  (at level 90, right associativity).

Definition XLOG (level : LogLevel) (msg : string) : M unit :=
  fun s => (inr tt,
            mkState (honorStop_ s) (status_ s) (loopTerminated s)
                    (xlog s ++ [(level, msg)])).

Definition terminateLoopSoon : M unit :=
  fun s => (inr tt, mkState (honorStop_ s) (status_ s) true (xlog s)).

Definition setHonorStop (honorStop : bool) : M unit :=
  fun s => (inr tt, mkState honorStop (status_ s) (loopTerminated s) (xlog s)).

Definition setStatus (status : fb_status) : M unit :=
  fun s => (inr tt, mkState (honorStop_ s) status (loopTerminated s) (xlog s)).

Definition stop (reason : string) : M unit :=
  fun s =>
    if negb (honorStop_ s) then
      XLOG INFO ("ignoring stop attempt: " ++ reason) s
    else
      (XLOG INFO ("stopping: " ++ reason) >> terminateLoopSoon) s.

Definition getStatus : M fb_status := fun s => (inr (status_ s), s).

Definition dquote : string := String (ascii_of_N 34) EmptyString.

Definition SIGINT : Z := 2.
Definition SIGTERM : Z := 15.
Definition ENOENT : Z := 2.

Inductive Request : Type :=
  | call_getStatus
  | call_setOption (name value : string)
  | call_getPid
  | call_listMounts
  | call_shutdown
  | call_initiateShutdown (reason : string).

(** What the event base delivers: a thrift request or a signal. *)
Inductive Event : Type :=
  | thrift (r : Request)
  | signal (sig : Z).

(** How the process of [main] ends: [exit] with a code, a return from
    [main], neither while the event loop is still serving, or
    [std::terminate] when an exception leaves [main], which has no handler:
    the process is then ended by SIGABRT and gives no exit code. *)
Inductive Outcome : Type :=
  | Exited (code : Z) (msg : string)
  | Returned (code : Z)
  | Serving
  | Aborted (what : string).

(** What the lock file answers to [acquireLock]: the open of it by
    [folly::File] throws [std::system_error]; or it opens and [try_lock]
    throws (an [flock] error other than EWOULDBLOCK); or [try_lock] returns,
    false when another process holds the lock. *)
Inductive LockFile : Type :=
  | open_throws (what : string)
  | try_lock_throws (what : string)
  | try_lock_returns (locked : bool).

(** What [main] meets: the flags, what the lock file answers, what
    [unlink] of the socket path returns and the [errno] it leaves, and the
    events that reach the event loop.  The other calls of [main] into the
    libraries ([UserInfo::lookup], [folly::Init], [canonicalPath],
    [setFromPath], the set-up of the thrift server) are taken to return;
    [daemonize] and [dropPrivileges] do not bear on the exit code of the
    daemon and are left out. *)
Record Environment : Type := mkEnvironment {
  FLAGS_edenDir : string;
  FLAGS_ignoreStop : bool;
  lockFile : LockFile;
  unlink_rc : Z;
  errno : Z;
  events : list Event
}.

(** What [try_lock] returned, false when it was not reached or threw. *)
Definition try_lock (env : Environment) : bool :=
  match lockFile env with
  | try_lock_returns locked => locked
  | _ => false
  end.

(** [std::string::c_str] read as a C string: the characters before the
    first NUL. *)
Fixpoint c_str (s : string) : string :=
  match s with
  | EmptyString => EmptyString
  | String c rest =>
      if Ascii.eqb c Ascii.zero then EmptyString else String c (c_str rest)
  end.

Section Daemon.

(** [folly::tryTo<bool>]: the parsed value, or nothing on an error. *)
Variable tryTo_bool : string -> option bool.

(** [folly::errnoStr] and [canonicalPath]. *)
Variable errnoStr : Z -> string.
Variable canonicalPath : string -> string.

Definition badOption {A} (name value : string) : M A :=
  let errMsg :=
    "invalid value for " ++ name ++ " setting: " ++ dquote ++ value ++ dquote in
  XLOG ERR errMsg >> throw (invalid_argument errMsg).

Definition setOption (name value : string) : M unit :=
  if decide (name = "honor_stop") then
    match tryTo_bool value with
    | None => badOption name value
    | Some boolValue => setHonorStop boolValue
    end
  else if decide (name = "status") then
    if decide (value = "starting") then setStatus STARTING
    else if decide (value = "alive") then setStatus ALIVE
    else if decide (value = "stopping") then setStatus STOPPING
    else badOption name value
  else ret tt.

Definition shutdown : M unit := stop "received shutdown() thrift request".

Definition initiateShutdown (reason : string) : M unit :=
  stop ("received initiateShutdown() thrift requested: " ++ c_str reason).

Definition signalReceived (sig : Z) : M unit :=
  if decide (sig = SIGINT) then stop "received SIGINT"
  else if decide (sig = SIGTERM) then stop "received SIGTERM"
  else XLOG INFO ("received signal " ++ NilEmpty.string_of_int (Z.to_int sig)).

(** One turn of the event loop; an exception thrown by a thrift handler
    goes back to the caller of the request, the daemon carries on. *)
Definition dispatch (e : Event) (s : State) : State :=
  match e with
  | thrift call_getStatus => snd (getStatus s)
  | thrift (call_setOption name value) => snd (setOption name value s)
  | thrift call_getPid => s
  | thrift call_listMounts => s
  | thrift call_shutdown => snd (shutdown s)
  | thrift (call_initiateShutdown reason) => snd (initiateShutdown reason s)
  | signal sig => snd (signalReceived sig s)
  end.

(** [EventBase::loopForever] over the events that arrive: it returns
    once [terminateLoopSoon] has been called, and is still looping when
    the events given are used up. *)
Fixpoint loopForever (evs : list Event) (s : State) : bool * State :=
  match evs with
  | [] => (false, s)
  | e :: rest =>
      let s' := dispatch e s in
      if loopTerminated s' then (true, s') else loopForever rest s'
  end.

Definition run (evs : list Event) (s : State) : bool * State :=
  loopForever evs s.

(** Modelled from the spec: [StartupLogger::exitUnsuccessfully] of the
    absent [StartupLogger.cpp] reports the message and ends the process
    with the exit code given. *)
Definition exitUnsuccessfully (exitCode : Z) (msg : string) : Outcome :=
  Exited exitCode msg.

(** [acquireLock]: the value it returns, or the message of the
    [std::system_error] that leaves it.  Once the lock is held, the results
    of writing the pid are not looked at. *)
Definition acquireLock (env : Environment) (edenDir : string) : string + bool :=
  match lockFile env with
  | open_throws what => inl what
  | try_lock_throws what => inl what
  | try_lock_returns locked => if negb locked then inr false else inr true
  end.

Definition main (env : Environment) : Outcome :=
  if decide (FLAGS_edenDir env = EmptyString) then
    exitUnsuccessfully 1 "the --edenDir flag is required"
  else
    let edenDir := canonicalPath (FLAGS_edenDir env) in
    match acquireLock env edenDir with
    | inl what => Aborted what
    | inr acquired =>
    if negb acquired then
      exitUnsuccessfully 1 "Failed to acquire lock file"
    else
      let thriftSocketPath := edenDir ++ "/socket" in
      let rc := unlink_rc env in
      if decide (rc ≠ 0%Z ∧ errno env ≠ ENOENT) then
        let errnum := errno env in
        exitUnsuccessfully 1
          ("failed to remove eden socket at " ++ thriftSocketPath ++ ": "
             ++ errnoStr errnum)
      else
        let server := initial in
        let server :=
          if FLAGS_ignoreStop env then snd (setHonorStop false server)
          else server in
        if fst (run (events env) server) then Returned 0 else Serving
    end.

End Daemon.

End FakeEdenfs.

(** ** LocalStore.cpp: reading trees *)

Section GetTree.

(** [deserializeGitTree] of the absent [GitTree.cpp]: what it makes of the
    stored bytes is left open. *)
Variable deserializeGitTree : Hash -> list byte -> Try Tree.

Definition getTree (id : Hash) (s : LocalStore) : Future (option Tree) :=
  then_ (getFuture TreeFamily (getBytes id) s)
    (fun data =>
       match data with
       | None => inr None
       | Some bytes => then_ (deserializeGitTree id bytes) (fun t => inr (Some t))
       end).

End GetTree.

(** ** Sample inputs *)

(** The four bytes DE AD BE EF as a blob of one buffer. *)
Definition deadbeef : Blob := mkBlob Hash_zero [[xde; xad; xbe; xef]].

(** The empty tree, carrying the hash that git gives it. *)
Definition empty_tree_hashed : Tree :=
  mkTree (Hash_sha1 (Bytes.of_string "tree 0" ++ [x00])) [].

(** A store whose metadata record for the zero hash is one byte long. *)
Definition short_record_store : LocalStore :=
  Engine.put BlobMetaDataFamily (getBytes Hash_zero) [x2a] Engine.empty.

(** A store whose metadata record for the zero hash is that of the four
    bytes DE AD BE EF. *)
Definition full_record_store : LocalStore :=
  Engine.put BlobMetaDataFamily (getBytes Hash_zero)
    (SerializedBlobMetadata.serialize (Hash_sha1 [xde; xad; xbe; xef]) 4)
    Engine.empty.

(** The requests for a shutdown: the two management calls and the two
    signals that [SignalHandler] registers. *)
Inductive ShutdownRequest : FakeEdenfs.Event -> Prop :=
  | shutdown_call : ShutdownRequest (FakeEdenfs.thrift FakeEdenfs.call_shutdown)
  | initiateShutdown_call reason :
      ShutdownRequest (FakeEdenfs.thrift (FakeEdenfs.call_initiateShutdown reason))
  | sigint : ShutdownRequest (FakeEdenfs.signal FakeEdenfs.SIGINT)
  | sigterm : ShutdownRequest (FakeEdenfs.signal FakeEdenfs.SIGTERM).

(** A boolean parser to run the daemon with on sample inputs: it reads
    [true], [false], [1] and [0]. *)
Definition sample_tryTo_bool (value : string) : option bool :=
  if decide (value = "true"%string) then Some true
  else if decide (value = "1"%string) then Some true
  else if decide (value = "false"%string) then Some false
  else if decide (value = "0"%string) then Some false
  else None.

(** A rendering of error numbers to run [main] with on sample inputs. *)
Definition sample_errnoStr (errnum : Z) : string :=
  ("errno " ++ NilEmpty.string_of_int (Z.to_int errnum))%string.

(** A start with no socket in the way, and then two requests. *)
Definition sample_environment : FakeEdenfs.Environment :=
  FakeEdenfs.mkEnvironment "/tmp/eden" false (FakeEdenfs.try_lock_returns true) (-1)
    FakeEdenfs.ENOENT
    [FakeEdenfs.thrift (FakeEdenfs.call_setOption "status" "stopping");
     FakeEdenfs.thrift FakeEdenfs.call_shutdown].

(** The four bytes DE AD BE EF in two buffers with an empty one between
    them, under another hash field. *)
Definition deadbeef_chunked : Blob :=
  mkBlob (Hash_sha1 []) [[xde; xad]; []; [xbe; xef]].

(** A tree of one file, with no hash computed yet. *)
Definition one_file_tree : Tree :=
  mkTree Hash_zero [mkTreeEntry (Bytes.of_string "a") 33188 Hash_zero REGULAR_FILE].

(** A deserializer of trees to run [getTree] with on sample inputs: it
    keeps no entry. *)
Definition sample_deserializeGitTree (id : Hash) (data : list byte) : Try Tree :=
  inr (mkTree id []).

(** A start with [--ignoreStop], and then signals and requests, one of
    which sets [honor_stop] to false again. *)
Definition ignoring_environment : FakeEdenfs.Environment :=
  FakeEdenfs.mkEnvironment "/tmp/eden" true (FakeEdenfs.try_lock_returns true) 0 0
    [FakeEdenfs.signal FakeEdenfs.SIGTERM;
     FakeEdenfs.thrift FakeEdenfs.call_shutdown;
     FakeEdenfs.thrift (FakeEdenfs.call_setOption "honor_stop" "false");
     FakeEdenfs.signal FakeEdenfs.SIGINT].

(** A start where the lock file cannot be opened. *)
Definition unopened_lock_environment : FakeEdenfs.Environment :=
  FakeEdenfs.mkEnvironment "/tmp/eden" false
    (FakeEdenfs.open_throws "open(/tmp/eden/lock) failed: Permission denied") 0 0 [].

(** * Properties *)

(** ** Bytes and integers *)

Lemma to_N_of_N (n : N) : Byte.to_N (Bytes.of_N n) = n mod 256.
Proof.
  unfold Bytes.of_N.
  pose proof (Byte.to_of_N_option_map (n mod 256)) as H.
  assert (n mod 256 < 256) as Hlt by (apply N.mod_lt; discriminate).
  destruct (N.leb_spec (n mod 256) 255) as [_|Hgt]; [|lia].
  destruct (Byte.of_N (n mod 256)) as [b|]; simpl in *; congruence.
Qed.

Lemma be_encode_length (len : nat) (n : N) : length (Bytes.be_encode len n) = len.
Proof. induction len as [|k IH]; simpl; [reflexivity | by rewrite IH]. Qed.

Lemma be_decode_from (bs : list byte) (acc : N) :
  fold_left (fun a b => a * 256 + Byte.to_N b) bs acc
  = acc * 256 ^ N.of_nat (length bs) + Bytes.be_decode bs.
Proof.
  unfold Bytes.be_decode. revert acc.
  induction bs as [|b bs IH]; intros acc.
  - simpl. lia.
  - cbn [fold_left length]. rewrite IH, (IH (0 * 256 + _)).
    rewrite Nat2N.inj_succ, N.pow_succ_r'. lia.
Qed.

Lemma be_decode_encode (len : nat) (n : N) :
  Bytes.be_decode (Bytes.be_encode len n) = n mod 256 ^ N.of_nat len.
Proof.
  induction len as [|k IH].
  - simpl. by rewrite N.mod_1_r.
  - unfold Bytes.be_decode. cbn [Bytes.be_encode fold_left].
    rewrite be_decode_from, be_encode_length, IH, to_N_of_N.
    rewrite Nat2N.inj_succ, N.pow_succ_r', (N.mul_comm 256).
    rewrite N.Div0.mod_mul_r. lia.
Qed.

Lemma be_decode_encode_small (len : nat) (n : N) :
  n < 256 ^ N.of_nat len -> Bytes.be_decode (Bytes.be_encode len n) = n.
Proof. intros H. rewrite be_decode_encode. by apply N.mod_small. Qed.

Lemma of_string_app (a b : string) :
  Bytes.of_string (a ++ b)%string = Bytes.of_string a ++ Bytes.of_string b.
Proof.
  unfold Bytes.of_string, list_byte_of_string.
  induction a as [|c a IH]; simpl; [reflexivity | by rewrite IH].
Qed.

(** ** SHA-1 *)

Lemma sha1_output_length (h : SHA1.State) : length (SHA1.output h) = 20%nat.
Proof.
  destruct h as [[[[h0 h1] h2] h3] h4]. unfold SHA1.output.
  rewrite !length_app, !be_encode_length. reflexivity.
Qed.

Lemma Hash_sha1_valid (data : list byte) : Hash_valid (Hash_sha1 data).
Proof. apply sha1_output_length. Qed.

Lemma Hash_zero_valid : Hash_valid Hash_zero.
Proof. reflexivity. Qed.

(** The digests of FIPS 180: of the empty message, of [abc], and of a
    message that takes two blocks. *)
Example sha1_empty :
  Hash_toString (Hash_sha1 [])
  = "da39a3ee5e6b4b0d3255bfef95601890afd80709"%string.
Proof. vm_compute. reflexivity. Qed.

Example sha1_abc :
  Hash_toString (Hash_sha1 (Bytes.of_string "abc"))
  = "a9993e364706816aba3e25717850c26c9cd0d89d"%string.
Proof. vm_compute. reflexivity. Qed.

Example sha1_two_blocks :
  Hash_toString
    (Hash_sha1
       (Bytes.of_string "abcdbcdecdefdefgefghfghighijhijkijkljklmklmnlmnomnopnopq"))
  = "84983e441c3bd26ebaae4aa1f95129e5e54670f1"%string.
Proof. vm_compute. reflexivity. Qed.

(** ** Chains of buffers *)

Lemma peekSlices_concat (contents : IOBuf) :
  concat (peekSlices contents) = coalesce contents.
Proof.
  unfold coalesce.
  induction contents as [|bytes rest IH]; simpl; [reflexivity|].
  destruct bytes as [|b bytes]; simpl; [exact IH | by rewrite IH].
Qed.

Lemma computeChainDataLength_coalesce (contents : IOBuf) :
  computeChainDataLength contents = N.of_nat (length (coalesce contents)).
Proof.
  unfold coalesce.
  induction contents as [|bytes rest IH]; simpl; [reflexivity|].
  rewrite IH, length_app. lia.
Qed.

(** ** Git framing of blobs *)

Lemma stripPrefix_app (p rest : list byte) : stripPrefix p (p ++ rest) = Some rest.
Proof.
  induction p as [|a p IH]; simpl; [reflexivity|].
  by rewrite decide_True.
Qed.

Lemma readTerminatedString_app (s rest : list byte) :
  Forall (fun b => b <> x00) s ->
  readTerminatedString (s ++ x00 :: rest) = Some (s, rest).
Proof.
  induction 1 as [|b s Hb _ IH]; simpl.
  - reflexivity.
  - rewrite decide_False by exact Hb. by rewrite IH.
Qed.

Lemma decimal_no_nul (d : uint) :
  Forall (fun b => b <> x00) (Bytes.of_string (NilEmpty.string_of_uint d)).
Proof.
  induction d; cbn; constructor; try assumption; discriminate.
Qed.

Lemma to_uint_not_nil (n : N) : N.to_uint n <> Nil.
Proof.
  intros H. pose proof (Unsigned.of_to n) as Hn. rewrite H in Hn.
  cbn in Hn. subst n. discriminate.
Qed.

Lemma parseSize_to_string (n : N) :
  parseSize (Bytes.of_string (to_string n)) = Some n.
Proof.
  unfold parseSize, Bytes.of_string, to_string.
  destruct (list_byte_of_string (NilEmpty.string_of_uint (N.to_uint n)))
    as [|b l] eqn:E.
  - exfalso. apply (to_uint_not_nil n).
    destruct (N.to_uint n); cbn in E; try discriminate E. reflexivity.
  - rewrite <- E, string_of_list_byte_of_string, NilEmpty.usu. simpl.
    by rewrite Unsigned.of_to.
Qed.

Lemma deserializeGitBlob_framed (hash : Hash) (contents : list byte) :
  deserializeGitBlob hash (blob_prefix (N.of_nat (length contents)) ++ contents)
  = inr (mkBlob hash [contents]).
Proof.
  unfold deserializeGitBlob, blob_prefix.
  rewrite of_string_app, <- !app_assoc, stripPrefix_app. simpl app.
  rewrite readTerminatedString_app by apply decimal_no_nul.
  rewrite parseSize_to_string, N.eqb_refl. reflexivity.
Qed.

(** ** The key-value engine *)

Lemma get_put_eq (ks : KeySpace) (key value : list byte) (s : LocalStore) :
  Engine.get ks key (Engine.put ks key value s) = Some value.
Proof.
  unfold Engine.get, Engine.put. rewrite decide_True by reflexivity.
  apply lookup_insert_eq.
Qed.

Lemma get_put_ne (ks ks' : KeySpace) (key key' value : list byte) (s : LocalStore) :
  ks <> ks' \/ key <> key' ->
  Engine.get ks' key' (Engine.put ks key value s) = Engine.get ks' key' s.
Proof.
  unfold Engine.get, Engine.put. intros H.
  destruct (decide (ks' = ks)) as [->|Hne]; [|reflexivity].
  destruct H as [H|H]; [congruence|]. by rewrite lookup_insert_ne.
Qed.

(** What [putBlob] leaves in the store: one batch of two writes, both under
    the bytes of [id]. *)
Lemma putBlob_unfold (id : Hash) (blob : Blob) (s : LocalStore) :
  let contents := getContents blob in
  let metadata :=
    mkBlobMetadata (Hash_sha1 (coalesce contents)) (computeChainDataLength contents) in
  putBlob id blob s =
    (metadata,
     Engine.put BlobMetaDataFamily (getBytes id)
       (SerializedBlobMetadata.of_metadata metadata)
       (Engine.put BlobFamily (getBytes id)
          (blob_prefix (computeChainDataLength contents) ++ coalesce contents) s)).
Proof.
  unfold putBlob, WriteBatch_putBlob, Engine.beginWrite, Engine.batch_put_slices,
    Engine.batch_put, Engine.flush.
  cbn [app fold_left Engine.write_keySpace Engine.write_key Engine.write_value concat].
  by rewrite peekSlices_concat.
Qed.

(** ** Blob metadata records *)

Lemma serialize_length (h : Hash) (n : N) :
  Hash_valid h ->
  length (SerializedBlobMetadata.serialize h n) = SerializedBlobMetadata.SIZE.
Proof.
  intros Hh. unfold SerializedBlobMetadata.serialize, SerializedBlobMetadata.SIZE.
  rewrite length_app, be_encode_length, Hh. reflexivity.
Qed.

Lemma parse_sized (blobID : Hash) (bytes : list byte) :
  length bytes = SerializedBlobMetadata.SIZE ->
  SerializedBlobMetadata.parse blobID bytes
  = inr (mkBlobMetadata (mkHash (drop 8 bytes)) (Bytes.be_decode (take 8 bytes))).
Proof.
  intros H. unfold SerializedBlobMetadata.parse.
  destruct (decide (length bytes ≠ SerializedBlobMetadata.SIZE)); [contradiction|].
  reflexivity.
Qed.

Lemma parse_serialize (blobID h : Hash) (n : N) :
  Hash_valid h -> n < 2 ^ 64 ->
  SerializedBlobMetadata.parse blobID (SerializedBlobMetadata.serialize h n)
  = inr (mkBlobMetadata h n).
Proof.
  intros Hh Hn. rewrite parse_sized by by apply serialize_length.
  unfold SerializedBlobMetadata.serialize.
  rewrite take_app_length', drop_app_length' by (symmetry; apply be_encode_length).
  rewrite be_decode_encode_small by exact Hn. by destruct h.
Qed.

Lemma parse_missized (blobID : Hash) (bytes : list byte) :
  length bytes <> SerializedBlobMetadata.SIZE ->
  SerializedBlobMetadata.parse blobID bytes
  = inl (invalid_argument
           ("Blob metadata for " ++ Hash_toString blobID
              ++ " had unexpected size " ++ to_string (N.of_nat (length bytes))
              ++ ". Could not deserialize.")%string).
Proof.
  intros H. unfold SerializedBlobMetadata.parse.
  destruct (decide (length bytes ≠ SerializedBlobMetadata.SIZE)); [|contradiction].
  reflexivity.
Qed.

(** ** Blobs: put, then get *)

(** C1: after [putBlob id b], [Blob[id]] holds the git-framed bytes of [b]
    and [BlobMetadata[id]] holds the record of the sha-1 of the raw contents
    of [b] and of its length; [getBlob id] then gives a blob with the bytes
    of [b], [getBlobMetadata id] gives that hash and size; the two writes
    are made through one write batch, which is flushed once, and [putBlob]
    returns the metadata.  The length of a blob fits a [uint64_t]. *)
Theorem putBlob_then_get (id : Hash) (b : Blob) (s : LocalStore) :
  computeChainDataLength (getContents b) < 2 ^ 64 ->
  let contents := coalesce (getContents b) in
  let size := N.of_nat (length contents) in
  let metadata := mkBlobMetadata (Hash_sha1 contents) size in
  let framed :=
    Bytes.of_string "blob " ++ Bytes.of_string (to_string size) ++ [x00] ++ contents in
  let record := Bytes.be_encode 8 size ++ getBytes (Hash_sha1 contents) in
  let s' := snd (putBlob id b s) in
  get BlobFamily id s' = Some framed
  /\ get BlobMetaDataFamily id s' = Some record
  /\ getBlob id s' = inr (Some (mkBlob id [contents]))
  /\ getBlobMetadata id s' = inr (Some metadata)
  /\ fst (putBlob id b s) = metadata
  /\ WriteBatch_putBlob id b (Engine.beginWrite (size + 64))
     = (metadata,
        [Engine.mkWrite BlobFamily (getBytes id) framed;
         Engine.mkWrite BlobMetaDataFamily (getBytes id) record])
  /\ s' = Engine.flush (snd (WriteBatch_putBlob id b (Engine.beginWrite (size + 64)))) s.
Proof.
  intros Hlen contents size metadata framed record s'.
  assert (framed = blob_prefix size ++ contents) as Hframed.
  { unfold framed, blob_prefix. rewrite of_string_app, <- !app_assoc. reflexivity. }
  assert (computeChainDataLength (getContents b) = size) as Hsize
    by apply computeChainDataLength_coalesce.
  assert (s' = Engine.put BlobMetaDataFamily (getBytes id) record
                 (Engine.put BlobFamily (getBytes id) framed s)) as Hs'.
  { unfold s'. rewrite putBlob_unfold. cbn [snd]. rewrite Hsize, Hframed. reflexivity. }
  assert (get BlobFamily id s' = Some framed) as Hblob.
  { unfold get. rewrite Hs', get_put_ne by (left; discriminate). apply get_put_eq. }
  assert (get BlobMetaDataFamily id s' = Some record) as Hmeta.
  { unfold get. rewrite Hs'. apply get_put_eq. }
  refine (conj Hblob (conj Hmeta (conj _ (conj _ (conj _ (conj _ _)))))).
  - unfold getBlob, getFuture, get in *. rewrite Hblob. cbn [then_].
    rewrite Hframed. unfold size. by rewrite deserializeGitBlob_framed.
  - unfold getBlobMetadata, getFuture, get in *. rewrite Hmeta. cbn [then_].
    change record with (SerializedBlobMetadata.serialize (Hash_sha1 contents) size).
    rewrite parse_serialize; [reflexivity | apply Hash_sha1_valid | by rewrite <- Hsize].
  - rewrite putBlob_unfold. cbn [fst]. by rewrite Hsize.
  - unfold WriteBatch_putBlob, Engine.beginWrite, Engine.batch_put_slices,
      Engine.batch_put. cbn [app concat].
    rewrite peekSlices_concat, Hsize, Hframed. reflexivity.
  - unfold s', putBlob. rewrite Hsize.
    by destruct (WriteBatch_putBlob id b (Engine.beginWrite (size + 64))).
Qed.

Lemma putBlob_then_get_witness :
  computeChainDataLength (getContents deadbeef) < 2 ^ 64
  /\ get BlobFamily Hash_zero (snd (putBlob Hash_zero deadbeef Engine.empty))
     = Some [x62; x6c; x6f; x62; x20; x34; x00; xde; xad; xbe; xef]
  /\ getBlob Hash_zero (snd (putBlob Hash_zero deadbeef Engine.empty))
     = inr (Some (mkBlob Hash_zero [[xde; xad; xbe; xef]])).
Proof.
  assert (computeChainDataLength (getContents deadbeef) < 2 ^ 64) as H
    by (vm_compute; reflexivity).
  pose proof (putBlob_then_get Hash_zero deadbeef Engine.empty H) as (Hb & _ & Hg & _).
  exact (conj H (conj Hb Hg)).
Defined.

(** C10: [putBlob id b] writes the blob and its metadata under the bytes of
    the hash [id] that the caller gives; when [id] is not the sha-1 of the
    contents, that sha-1 is found inside the metadata value only: nothing is
    written under it, nor under any key other than [id]. *)
Theorem putBlob_keyed_by_id (id : Hash) (b : Blob) (s : LocalStore) :
  Hash_sha1 (coalesce (getContents b)) <> id ->
  let contents := coalesce (getContents b) in
  let size := N.of_nat (length contents) in
  let s' := snd (putBlob id b s) in
  Engine.get BlobFamily (getBytes id) s' = Some (blob_prefix size ++ contents)
  /\ Engine.get BlobMetaDataFamily (getBytes id) s'
     = Some (Bytes.be_encode 8 size ++ getBytes (Hash_sha1 contents))
  /\ (forall ks, Engine.get ks (getBytes (Hash_sha1 contents)) s'
                 = Engine.get ks (getBytes (Hash_sha1 contents)) s)
  /\ (forall ks key, key <> getBytes id -> Engine.get ks key s' = Engine.get ks key s)
  /\ (forall ks, ks <> BlobFamily -> ks <> BlobMetaDataFamily -> s' ks = s ks).
Proof.
  intros Hne contents size s'.
  assert (s' = Engine.put BlobMetaDataFamily (getBytes id)
                 (Bytes.be_encode 8 size ++ getBytes (Hash_sha1 contents))
                 (Engine.put BlobFamily (getBytes id)
                    (blob_prefix size ++ contents) s)) as Hs'.
  { unfold s'. rewrite putBlob_unfold. cbn [snd].
    by rewrite computeChainDataLength_coalesce. }
  assert (forall ks key, key <> getBytes id ->
            Engine.get ks key s' = Engine.get ks key s) as Hother.
  { intros ks key Hkey. rewrite Hs'.
    rewrite !get_put_ne by (right; congruence). reflexivity. }
  refine (conj _ (conj _ (conj _ (conj Hother _)))).
  - rewrite Hs', get_put_ne by (left; discriminate). apply get_put_eq.
  - rewrite Hs'. apply get_put_eq.
  - intros ks. apply Hother. intros Heq. apply Hne.
    destruct id as [bytes]. cbn in Heq. unfold Hash_sha1.
    fold contents. cbn [getBytes] in Heq |- *. by rewrite Heq.
  - intros ks H1 H2. rewrite Hs'. unfold Engine.put.
    rewrite !decide_False by assumption. reflexivity.
Qed.

Lemma putBlob_keyed_by_id_witness :
  Hash_sha1 (coalesce (getContents deadbeef)) <> Hash_zero
  /\ Engine.get BlobMetaDataFamily (getBytes Hash_zero)
       (snd (putBlob Hash_zero deadbeef Engine.empty))
     = Some (Bytes.be_encode 8 4 ++ getBytes (Hash_sha1 [xde; xad; xbe; xef]))
  /\ (forall ks,
        Engine.get ks (getBytes (Hash_sha1 [xde; xad; xbe; xef]))
          (snd (putBlob Hash_zero deadbeef Engine.empty))
        = None).
Proof.
  assert (Hash_sha1 (coalesce (getContents deadbeef)) <> Hash_zero) as H
    by (vm_compute; discriminate).
  pose proof (putBlob_keyed_by_id Hash_zero deadbeef Engine.empty H)
    as (_ & Hm & Hk & _).
  refine (conj H (conj Hm _)).
  intros ks. refine (eq_trans (Hk ks) _). apply lookup_empty.
Defined.

(** The metadata record of DE AD BE EF does not end in the sha-1 of the
    framed form [blob 4\0] DE AD BE EF (7d174b13...). *)
Lemma blob_metadata_hash_of_framed_fails :
  get BlobMetaDataFamily Hash_zero (snd (putBlob Hash_zero deadbeef Engine.empty))
  <> Some ([x00; x00; x00; x00; x00; x00; x00; x04]
             ++ getBytes
                  (Hash_sha1 (Bytes.of_string "blob 4" ++ [x00; xde; xad; xbe; xef]))).
Proof. vm_compute. discriminate. Qed.

(** C3, amended: after putting the four bytes DE AD BE EF under [id], the
    [BlobMetadata] key space holds at [id] the 28 bytes 00 00 00 00 00 00 00
    04 followed by the sha-1 of the four raw bytes (d78f8bb9...), not of the
    framed form; put into an empty store, that is its only entry.  The
    [Blob] key space holds at [id] the 11 bytes [blob 4\0] DE AD BE EF. *)
Theorem put_deadbeef (id : Hash) (s : LocalStore) :
  let s' := snd (putBlob id deadbeef s) in
  let record :=
    [x00; x00; x00; x00; x00; x00; x00; x04]
      ++ getBytes (Hash_sha1 [xde; xad; xbe; xef]) in
  let framed := Bytes.of_string "blob 4" ++ [x00; xde; xad; xbe; xef] in
  get BlobMetaDataFamily id s' = Some record
  /\ length record = 28%nat
  /\ Hash_toString (Hash_sha1 [xde; xad; xbe; xef])
     = "d78f8bb992a56a597f6c7a1fb918bb78271367eb"%string
  /\ snd (putBlob id deadbeef Engine.empty) BlobMetaDataFamily
     = {[ getBytes id := record ]}
  /\ get BlobFamily id s' = Some framed
  /\ length framed = 11%nat.
Proof.
  intros s' record framed.
  assert (forall s0, snd (putBlob id deadbeef s0)
          = Engine.put BlobMetaDataFamily (getBytes id) record
              (Engine.put BlobFamily (getBytes id) framed s0)) as Hput.
  { intros s0. rewrite putBlob_unfold. cbn [snd]. reflexivity. }
  refine (conj _ (conj _ (conj _ (conj _ (conj _ _))))).
  - unfold s', get. rewrite Hput. apply get_put_eq.
  - vm_compute. reflexivity.
  - vm_compute. reflexivity.
  - rewrite Hput. unfold Engine.put, Engine.empty.
    rewrite decide_True, decide_False by done. reflexivity.
  - unfold s', get. rewrite Hput, get_put_ne by (left; discriminate).
    apply get_put_eq.
  - reflexivity.
Qed.

(** C4: the persisted record is 28 bytes, the size as 8 bytes big endian
    and then the 20 bytes of the content hash; [getBlobMetadata] reads a
    present record of 28 bytes back as that hash and size, and for a present
    record of another length it throws [std::invalid_argument] with a
    message that carries the hash of the key in hexadecimal. *)
Theorem getBlobMetadata_record (id : Hash) (s : LocalStore) (bytes : list byte) :
  get BlobMetaDataFamily id s = Some bytes ->
  (length bytes = 28%nat ->
     getBlobMetadata id s
     = inr (Some (mkBlobMetadata (mkHash (drop 8 bytes))
                                 (Bytes.be_decode (take 8 bytes)))))
  /\ (length bytes <> 28%nat ->
        getBlobMetadata id s
        = inl (invalid_argument
                 ("Blob metadata for " ++ Hash_toString id
                    ++ " had unexpected size " ++ to_string (N.of_nat (length bytes))
                    ++ ". Could not deserialize.")%string))
  /\ (forall (h : Hash) (n : N),
        Hash_valid h -> n < 2 ^ 64 ->
        let record := SerializedBlobMetadata.serialize h n in
        length record = 28%nat
        /\ take 8 record = Bytes.be_encode 8 n
        /\ drop 8 record = getBytes h
        /\ (bytes = record ->
              getBlobMetadata id s = inr (Some (mkBlobMetadata h n)))).
Proof.
  intros Hget.
  assert (getBlobMetadata id s
          = then_ (SerializedBlobMetadata.parse id bytes) (fun m => inr (Some m)))
    as Hunfold.
  { unfold getBlobMetadata, getFuture. unfold get in Hget. rewrite Hget. reflexivity. }
  rewrite Hunfold.
  refine (conj _ (conj _ _)).
  - intros Hlen. by rewrite parse_sized.
  - intros Hlen. by rewrite parse_missized.
  - intros h n Hh Hn record.
    refine (conj (serialize_length h n Hh) (conj _ (conj _ _))).
    + unfold record, SerializedBlobMetadata.serialize.
      apply take_app_length'. symmetry. apply be_encode_length.
    + unfold record, SerializedBlobMetadata.serialize.
      apply drop_app_length'. symmetry. apply be_encode_length.
    + intros ->. unfold record. by rewrite parse_serialize.
Qed.

Lemma getBlobMetadata_record_witness :
  get BlobMetaDataFamily Hash_zero short_record_store = Some [x2a]
  /\ getBlobMetadata Hash_zero short_record_store
     = inl (invalid_argument
              "Blob metadata for 0000000000000000000000000000000000000000 had unexpected size 1. Could not deserialize.")
  /\ getBlobMetadata Hash_zero full_record_store
     = inr (Some (mkBlobMetadata (Hash_sha1 [xde; xad; xbe; xef]) 4)).
Proof.
  assert (get BlobMetaDataFamily Hash_zero short_record_store = Some [x2a]) as H
    by apply get_put_eq.
  pose proof (getBlobMetadata_record Hash_zero short_record_store [x2a] H)
    as (_ & Hbad & _).
  pose proof (getBlobMetadata_record Hash_zero full_record_store _
                (get_put_eq _ _ _ _)) as (_ & _ & Hgood).
  destruct (Hgood (Hash_sha1 [xde; xad; xbe; xef]) 4 (Hash_sha1_valid _) eq_refl)
    as (_ & _ & _ & Hparse).
  exact (conj H (conj (Hbad ltac:(discriminate)) (Hparse eq_refl))).
Defined.

(** ** Reclaiming the caches *)

(** C5: [clearCaches] empties the key spaces [Blob], [BlobMetadata] and
    [HgCommitToTree] and leaves [Tree] and [HgProxyHash] as they were. *)
Theorem clearCaches_ephemeral_only (s : LocalStore) (ks : KeySpace) :
  clearCaches s ks =
    match ks with
    | BlobFamily | BlobMetaDataFamily | HgCommitToTreeFamily => ∅
    | TreeFamily | HgProxyHashFamily => s ks
    end.
Proof.
  unfold clearCaches, kKeySpaceRecords. cbn [fold_left keySpace persistence].
  unfold Engine.clearKeySpace. destruct ks; reflexivity.
Qed.

(** ** Trees *)

(** The empty tree and its well-known git hash; a tree of one file. *)
Example empty_tree_serialized :
  snd (serializeTree (mkTree Hash_zero [])) = Bytes.of_string "tree 0" ++ [x00]
  /\ Hash_toString (fst (serializeTree (mkTree Hash_zero [])))
     = "4b825dc642cb6eb9a060e54bf8d69288fbee4904"%string.
Proof. split; vm_compute; reflexivity. Qed.

Example one_entry_tree_serialized :
  snd (serializeTree
         (mkTree Hash_zero
            [mkTreeEntry (Bytes.of_string "a") 33188 Hash_zero REGULAR_FILE]))
  = Bytes.of_string "tree 29" ++ [x00] ++ Bytes.of_string "100644 a" ++ [x00]
      ++ getBytes Hash_zero.
Proof. vm_compute. reflexivity. Qed.

(** A tree that states its own git hash is stored under the sha-1 of its
    serialized form, and its hash field is not the zero hash. *)
Lemma putTree_key_sha1_without_zero_hash :
  ~ (fst (putTree empty_tree_hashed Engine.empty)
       = Hash_sha1 (snd (serializeTree empty_tree_hashed))
     <-> Tree_getHash empty_tree_hashed = Hash_zero).
Proof.
  intros [Hzero _].
  assert (fst (putTree empty_tree_hashed Engine.empty)
          = Hash_sha1 (snd (serializeTree empty_tree_hashed))) as Hkey
    by (vm_compute; reflexivity).
  specialize (Hzero Hkey). vm_compute in Hzero. discriminate Hzero.
Qed.

(** C2, amended: [putTree t] serializes [t] in git format, stores the bytes
    in the [Tree] key space and returns the key they are stored under; the
    key is the sha-1 of the serialized form if the hash field of [t] is the
    zero hash, and the stated hash of [t] otherwise.  Nothing else in the
    store changes. *)
Theorem putTree_key (t : Tree) (s : LocalStore) :
  let serialized :=
    GitTreeSerializer_finalize
      (fold_left GitTreeSerializer_addEntry (getTreeEntries t) []) in
  let key := fst (putTree t s) in
  let s' := snd (putTree t s) in
  get TreeFamily key s' = Some serialized
  /\ (Tree_getHash t = Hash_zero -> key = Hash_sha1 serialized)
  /\ (Tree_getHash t <> Hash_zero -> key = Tree_getHash t)
  /\ (forall ks k, ks <> TreeFamily \/ k <> getBytes key ->
        Engine.get ks k s' = Engine.get ks k s).
Proof.
  intros serialized key s'.
  assert (s' = Engine.put TreeFamily (getBytes key) serialized s) as Hs' by reflexivity.
  refine (conj _ (conj _ (conj _ _))).
  - unfold get. rewrite Hs'. apply get_put_eq.
  - intros Hz. unfold key, putTree, serializeTree. cbn [fst].
    by rewrite decide_True.
  - intros Hnz. unfold key, putTree, serializeTree. cbn [fst].
    by rewrite decide_False.
  - intros ks k Hne. rewrite Hs'. apply get_put_ne.
    destruct Hne as [H|H]; [left | right]; congruence.
Qed.

(** ** The fake daemon *)

Section DaemonProperties.

Import FakeEdenfs.
Local Open Scope string_scope.

Variable tryTo_bool : string -> option bool.

Lemma stop_ignored (reason : string) (s : State) :
  honorStop_ s = false ->
  stop reason s
  = (inr tt,
     mkState false (status_ s) (loopTerminated s)
             (xlog s ++ [(INFO, "ignoring stop attempt: " ++ reason)])).
Proof. intros H. unfold stop, XLOG. rewrite H. reflexivity. Qed.

Lemma stop_honoured (reason : string) (s : State) :
  honorStop_ s = true ->
  stop reason s
  = (inr tt,
     mkState true (status_ s) true (xlog s ++ [(INFO, "stopping: " ++ reason)])).
Proof. intros H. unfold stop, bind, XLOG, terminateLoopSoon. rewrite H. reflexivity. Qed.

(** Every request for a shutdown goes through [stop], with a reason of
    its own. *)
Lemma shutdown_request_stop (e : Event) (s : State) :
  ShutdownRequest e ->
  exists reason, dispatch tryTo_bool e s = snd (stop reason s).
Proof. intros H; destruct H; eexists; reflexivity. Qed.

Lemma setOption_honor_stop (value : string) (b : bool) (s : State) :
  tryTo_bool value = Some b ->
  setOption tryTo_bool "honor_stop" value s
  = (inr tt, mkState b (status_ s) (loopTerminated s) (xlog s)).
Proof.
  intros H. unfold setOption. rewrite decide_True by reflexivity.
  rewrite H. reflexivity.
Qed.

(** C6: a shutdown request ([shutdown], [initiateShutdown], SIGINT or
    SIGTERM) that reaches the running daemon ends the event loop exactly
    when [honor_stop] is true at that moment; when it is false, as after
    [setOption] has set it so, the request is logged and ignored and the
    loop goes on with the next event. *)
Theorem shutdown_iff_honor_stop (e : Event) (s : State) :
  ShutdownRequest e ->
  loopTerminated s = false ->
  (loopTerminated (dispatch tryTo_bool e s) = true <-> honorStop_ s = true)
  /\ (honorStop_ s = false ->
        (exists reason,
            dispatch tryTo_bool e s
            = mkState false (status_ s) false
                (xlog s ++ [(INFO, "ignoring stop attempt: " ++ reason)]))
        /\ forall rest,
             loopForever tryTo_bool (e :: rest) s
             = loopForever tryTo_bool rest (dispatch tryTo_bool e s))
  /\ (honorStop_ s = true ->
        forall rest, fst (loopForever tryTo_bool (e :: rest) s) = true)
  /\ (forall value,
        tryTo_bool value = Some false ->
        loopTerminated
          (dispatch tryTo_bool e
             (dispatch tryTo_bool (thrift (call_setOption "honor_stop" value)) s))
        = false).
Proof.
  intros He Hrun.
  destruct (shutdown_request_stop e s He) as [reason Hd].
  assert (honorStop_ s = false ->
          dispatch tryTo_bool e s
          = mkState false (status_ s) false
              (xlog s ++ [(INFO, "ignoring stop attempt: " ++ reason)])) as Hoff.
  { intros H. rewrite Hd, stop_ignored by exact H. cbn [snd]. by rewrite Hrun. }
  assert (honorStop_ s = true -> loopTerminated (dispatch tryTo_bool e s) = true)
    as Hon.
  { intros H. rewrite Hd, stop_honoured by exact H. reflexivity. }
  refine (conj _ (conj _ (conj _ _))).
  - split; [|exact Hon].
    intros Hterm. destruct (honorStop_ s) eqn:Hh; [reflexivity|].
    rewrite Hoff in Hterm by reflexivity. discriminate Hterm.
  - intros Hh. split; [eexists; by apply Hoff|].
    intros rest. cbn [loopForever]. rewrite (Hoff Hh). reflexivity.
  - intros Hh rest. cbn [loopForever]. rewrite (Hon Hh). reflexivity.
  - intros value Hv. cbn [dispatch].
    rewrite (setOption_honor_stop value false s Hv). cbn [snd].
    destruct (shutdown_request_stop e
                (mkState false (status_ s) (loopTerminated s) (xlog s)) He)
      as [reason' Hd'].
    rewrite Hd', stop_ignored by reflexivity. exact Hrun.
Qed.

(** C7: [setOption("status", v)] makes [getStatus] report STARTING, ALIVE
    or STOPPING for [v] equal to [starting], [alive] or [stopping]; for
    any other [v] it throws [std::invalid_argument] and the status
    reported stays as it was; [setOption("honor_stop", v)] throws
    [std::invalid_argument] when [v] does not parse as a boolean. *)
Theorem setOption_status (v : string) (s : State) :
  let after := snd (setOption tryTo_bool "status" v s) in
  let bad name :=
    invalid_argument
      ("invalid value for " ++ name ++ " setting: " ++ dquote ++ v ++ dquote) in
  (v = "starting" ->
     fst (setOption tryTo_bool "status" v s) = inr tt
     /\ fst (getStatus after) = inr STARTING)
  /\ (v = "alive" ->
        fst (setOption tryTo_bool "status" v s) = inr tt
        /\ fst (getStatus after) = inr ALIVE)
  /\ (v = "stopping" ->
        fst (setOption tryTo_bool "status" v s) = inr tt
        /\ fst (getStatus after) = inr STOPPING)
  /\ (v <> "starting" -> v <> "alive" -> v <> "stopping" ->
        fst (setOption tryTo_bool "status" v s) = inl (bad "status")
        /\ fst (getStatus after) = fst (getStatus s)
        /\ honorStop_ after = honorStop_ s
        /\ loopTerminated after = loopTerminated s)
  /\ (tryTo_bool v = None ->
        fst (setOption tryTo_bool "honor_stop" v s) = inl (bad "honor_stop")
        /\ honorStop_ (snd (setOption tryTo_bool "honor_stop" v s)) = honorStop_ s
        /\ status_ (snd (setOption tryTo_bool "honor_stop" v s)) = status_ s).
Proof.
  intros after bad.
  refine (conj _ (conj _ (conj _ (conj _ _)))).
  - intros ->. split; reflexivity.
  - intros ->. split; reflexivity.
  - intros ->. split; reflexivity.
  - intros H1 H2 H3. unfold after, setOption.
    rewrite (decide_False (P := "status" = "honor_stop")) by discriminate.
    rewrite (decide_True (P := "status" = "status")) by reflexivity.
    rewrite !decide_False by assumption.
    repeat split.
  - intros Hv. unfold setOption.
    rewrite decide_True by reflexivity. rewrite Hv.
    repeat split.
Qed.

(** C9: for a name other than [honor_stop] and [status], [setOption]
    returns without an error and leaves the daemon as it was, whatever the
    value. *)
Theorem setOption_unknown_name (name value : string) (s : State) :
  name <> "honor_stop" ->
  name <> "status" ->
  setOption tryTo_bool name value s = (inr tt, s).
Proof.
  intros H1 H2. unfold setOption.
  rewrite !decide_False by assumption. reflexivity.
Qed.

End DaemonProperties.

Lemma shutdown_iff_honor_stop_witness :
  ShutdownRequest (FakeEdenfs.thrift FakeEdenfs.call_shutdown)
  /\ FakeEdenfs.loopTerminated FakeEdenfs.initial = false
  /\ (FakeEdenfs.loopTerminated
        (FakeEdenfs.dispatch sample_tryTo_bool
           (FakeEdenfs.thrift FakeEdenfs.call_shutdown) FakeEdenfs.initial) = true
      <-> FakeEdenfs.honorStop_ FakeEdenfs.initial = true)
  /\ FakeEdenfs.loopTerminated
       (FakeEdenfs.dispatch sample_tryTo_bool
          (FakeEdenfs.thrift FakeEdenfs.call_shutdown)
          (FakeEdenfs.dispatch sample_tryTo_bool
             (FakeEdenfs.thrift (FakeEdenfs.call_setOption "honor_stop" "false"))
             FakeEdenfs.initial))
     = false.
Proof.
  pose proof (shutdown_iff_honor_stop sample_tryTo_bool
                (FakeEdenfs.thrift FakeEdenfs.call_shutdown) FakeEdenfs.initial
                shutdown_call eq_refl) as (Hiff & _ & _ & Hset).
  exact (conj shutdown_call (conj eq_refl (conj Hiff (Hset "false"%string eq_refl)))).
Defined.

Lemma setOption_unknown_name_witness :
  "verbose"%string <> "honor_stop"%string
  /\ "verbose"%string <> "status"%string
  /\ FakeEdenfs.setOption sample_tryTo_bool "verbose" "yes" FakeEdenfs.initial
     = (inr tt, FakeEdenfs.initial).
Proof.
  assert ("verbose"%string <> "honor_stop"%string) as H1 by discriminate.
  assert ("verbose"%string <> "status"%string) as H2 by discriminate.
  exact (conj H1 (conj H2
           (setOption_unknown_name sample_tryTo_bool "verbose" "yes"
              FakeEdenfs.initial H1 H2))).
Defined.

Section Startup.

Import FakeEdenfs.
Local Open Scope string_scope.

Variable tryTo_bool : string -> option bool.
Variable errnoStr : Z -> string.
Variable canonicalPath : string -> string.

(** C8: [main] ends the process with exit code 1 when [--edenDir] is
    missing, when the lock file is not acquired ([acquireLock] returns
    false: the file opens and [try_lock] finds the lock held), and when the
    socket cannot be removed ([unlink] fails with an errno other than
    ENOENT); whenever it exits, the code is 1; and once startup has
    succeeded and the event loop has returned, it returns 0.  An exception
    from the open or the lock of the lock file is no such failure: nothing
    catches it, and the process is aborted without an exit code. *)
Theorem main_exit_codes (env : Environment) :
  (FLAGS_edenDir env = EmptyString ->
     main tryTo_bool errnoStr canonicalPath env
     = Exited 1 "the --edenDir flag is required")
  /\ (FLAGS_edenDir env <> EmptyString ->
      acquireLock env (canonicalPath (FLAGS_edenDir env)) = inr false ->
        main tryTo_bool errnoStr canonicalPath env
        = Exited 1 "Failed to acquire lock file")
  /\ (acquireLock env (canonicalPath (FLAGS_edenDir env)) = inr false
      <-> lockFile env = try_lock_returns false)
  /\ (FLAGS_edenDir env <> EmptyString ->
      acquireLock env (canonicalPath (FLAGS_edenDir env)) = inr true ->
      unlink_rc env <> 0%Z -> errno env <> ENOENT ->
        main tryTo_bool errnoStr canonicalPath env
        = Exited 1
            ("failed to remove eden socket at "
               ++ (canonicalPath (FLAGS_edenDir env) ++ "/socket") ++ ": "
               ++ errnoStr (errno env)))
  /\ (FLAGS_edenDir env <> EmptyString ->
      acquireLock env (canonicalPath (FLAGS_edenDir env)) = inr true ->
      unlink_rc env = 0%Z \/ errno env = ENOENT ->
      fst (run tryTo_bool (events env)
             (if FLAGS_ignoreStop env then snd (setHonorStop false initial)
              else initial)) = true ->
        main tryTo_bool errnoStr canonicalPath env = Returned 0)
  /\ (forall code msg,
        main tryTo_bool errnoStr canonicalPath env = Exited code msg -> code = 1%Z)
  /\ (forall code,
        main tryTo_bool errnoStr canonicalPath env = Returned code -> code = 0%Z)
  /\ (forall what,
        FLAGS_edenDir env <> EmptyString ->
        acquireLock env (canonicalPath (FLAGS_edenDir env)) = inl what ->
        main tryTo_bool errnoStr canonicalPath env = Aborted what)
  /\ (forall what,
        acquireLock env (canonicalPath (FLAGS_edenDir env)) = inl what
        <-> lockFile env = open_throws what \/ lockFile env = try_lock_throws what).
Proof.
  unfold main, exitUnsuccessfully.
  refine (conj _ (conj _ (conj _ (conj _ (conj _ (conj _ (conj _ (conj _ _)))))))).
  - intros Hdir. by rewrite decide_True.
  - intros Hdir Hlock. rewrite decide_False by exact Hdir. by rewrite Hlock.
  - unfold acquireLock. destruct (lockFile env) as [what|what|[|]]; cbn;
      split; intros H; congruence.
  - intros Hdir Hlock Hrc Herr. rewrite decide_False by exact Hdir.
    rewrite Hlock. cbn [negb]. by rewrite decide_True.
  - intros Hdir Hlock Hrm Hrun. rewrite decide_False by exact Hdir.
    rewrite Hlock. cbn [negb].
    rewrite decide_False by (intros [Hrc Herr]; destruct Hrm; contradiction).
    by rewrite Hrun.
  - intros code msg.
    repeat (case_decide || case_match); cbn; intros Hm;
      try discriminate Hm; by injection Hm as <- _.
  - intros code.
    repeat (case_decide || case_match); cbn; intros Hm;
      try discriminate Hm; by injection Hm as <-.
  - intros what Hdir Hlock. rewrite decide_False by exact Hdir. by rewrite Hlock.
  - intros what. unfold acquireLock.
    destruct (lockFile env) as [w|w|[|]]; cbn; split;
      intros H; try destruct H as [H|H]; try congruence;
      injection H as <-; auto.
Qed.

End Startup.

(** With [--ignoreStop], neither SIGTERM nor [shutdown] ends the loop. *)
Example main_ignoreStop_keeps_serving :
  FakeEdenfs.main sample_tryTo_bool sample_errnoStr id
    (FakeEdenfs.mkEnvironment "/tmp/eden" true (FakeEdenfs.try_lock_returns true) 0 0
       [FakeEdenfs.signal FakeEdenfs.SIGTERM;
        FakeEdenfs.thrift FakeEdenfs.call_shutdown])
  = FakeEdenfs.Serving.
Proof. vm_compute. reflexivity. Qed.

Lemma setOption_status_witness :
  fst (FakeEdenfs.getStatus
         (snd (FakeEdenfs.setOption sample_tryTo_bool "status" "stopping"
                 FakeEdenfs.initial)))
  = inr FakeEdenfs.STOPPING
  /\ fst (FakeEdenfs.setOption sample_tryTo_bool "status" "dead" FakeEdenfs.initial)
     = inl (invalid_argument
              ("invalid value for status setting: " ++ FakeEdenfs.dquote ++ "dead"
                 ++ FakeEdenfs.dquote)%string)
  /\ fst (FakeEdenfs.getStatus
            (snd (FakeEdenfs.setOption sample_tryTo_bool "status" "dead"
                    FakeEdenfs.initial)))
     = inr FakeEdenfs.ALIVE
  /\ fst (FakeEdenfs.setOption sample_tryTo_bool "honor_stop" "maybe"
            FakeEdenfs.initial)
     = inl (invalid_argument
              ("invalid value for honor_stop setting: " ++ FakeEdenfs.dquote
                 ++ "maybe" ++ FakeEdenfs.dquote)%string).
Proof.
  pose proof (setOption_status sample_tryTo_bool "stopping" FakeEdenfs.initial)
    as (_ & _ & Hstopping & _).
  pose proof (setOption_status sample_tryTo_bool "dead" FakeEdenfs.initial)
    as (_ & _ & _ & Hdead & _).
  pose proof (setOption_status sample_tryTo_bool "maybe" FakeEdenfs.initial)
    as (_ & _ & _ & _ & Hmaybe).
  destruct (Hstopping eq_refl) as [_ Hs].
  destruct Hdead as (He & Hg & _); [discriminate .. |].
  destruct (Hmaybe eq_refl) as [Hm _].
  exact (conj Hs (conj He (conj Hg Hm))).
Defined.

Lemma main_exit_codes_witness :
  FakeEdenfs.main sample_tryTo_bool sample_errnoStr id
    (FakeEdenfs.mkEnvironment EmptyString false (FakeEdenfs.try_lock_returns true)
       0 0 [])
  = FakeEdenfs.Exited 1 "the --edenDir flag is required"
  /\ FakeEdenfs.main sample_tryTo_bool sample_errnoStr id
       (FakeEdenfs.mkEnvironment "/tmp/eden" false
          (FakeEdenfs.try_lock_returns false) 0 0 [])
     = FakeEdenfs.Exited 1 "Failed to acquire lock file"
  /\ FakeEdenfs.main sample_tryTo_bool sample_errnoStr id
       (FakeEdenfs.mkEnvironment "/tmp/eden" false
          (FakeEdenfs.try_lock_returns true) (-1) 13 [])
     = FakeEdenfs.Exited 1
         "failed to remove eden socket at /tmp/eden/socket: errno 13"
  /\ FakeEdenfs.main sample_tryTo_bool sample_errnoStr id sample_environment
     = FakeEdenfs.Returned 0
  /\ FakeEdenfs.main sample_tryTo_bool sample_errnoStr id unopened_lock_environment
     = FakeEdenfs.Aborted "open(/tmp/eden/lock) failed: Permission denied".
Proof.
  pose proof (main_exit_codes sample_tryTo_bool sample_errnoStr id
                (FakeEdenfs.mkEnvironment EmptyString false
                   (FakeEdenfs.try_lock_returns true) 0 0 [])) as (H1 & _).
  pose proof (main_exit_codes sample_tryTo_bool sample_errnoStr id
                (FakeEdenfs.mkEnvironment "/tmp/eden" false
                   (FakeEdenfs.try_lock_returns false) 0 0 []))
    as (_ & H2 & _).
  pose proof (main_exit_codes sample_tryTo_bool sample_errnoStr id
                (FakeEdenfs.mkEnvironment "/tmp/eden" false
                   (FakeEdenfs.try_lock_returns true) (-1) 13 []))
    as (_ & _ & _ & H3 & _).
  pose proof (main_exit_codes sample_tryTo_bool sample_errnoStr id sample_environment)
    as (_ & _ & _ & _ & H4 & _).
  pose proof (main_exit_codes sample_tryTo_bool sample_errnoStr id
                unopened_lock_environment)
    as (_ & _ & _ & _ & _ & _ & _ & H5 & _).
  refine (conj (H1 eq_refl)
            (conj (H2 _ eq_refl)
               (conj (H3 _ eq_refl _ _) (conj (H4 _ eq_refl _ _) (H5 _ _ eq_refl)))));
    try discriminate; try reflexivity.
  right. reflexivity.
Defined.

(** * Further properties of the store *)

Lemma put_at (ks ks' : KeySpace) (key value : list byte) (s : LocalStore) :
  Engine.put ks key value s ks'
  = if decide (ks' = ks) then <[key := value]> (s ks') else s ks'.
Proof. reflexivity. Qed.

Lemma flush_app (b1 b2 : WriteBatch) (s : LocalStore) :
  Engine.flush (b1 ++ b2) s = Engine.flush b2 (Engine.flush b1 s).
Proof. unfold Engine.flush. apply fold_left_app. Qed.

Lemma clearCaches_at (s : LocalStore) (ks : KeySpace) :
  clearCaches s ks =
    match ks with
    | BlobFamily | BlobMetaDataFamily | HgCommitToTreeFamily => ∅
    | TreeFamily | HgProxyHashFamily => s ks
    end.
Proof.
  unfold clearCaches, kKeySpaceRecords. cbn [fold_left keySpace persistence].
  unfold Engine.clearKeySpace. destruct ks; reflexivity.
Qed.

(** What [putBlob] leaves in each key space. *)
Lemma putBlob_at (id : Hash) (b : Blob) (s : LocalStore) (ks : KeySpace) :
  let contents := coalesce (getContents b) in
  let size := N.of_nat (length contents) in
  snd (putBlob id b s) ks =
    match ks with
    | BlobFamily => <[getBytes id := blob_prefix size ++ contents]> (s ks)
    | BlobMetaDataFamily =>
        <[getBytes id := SerializedBlobMetadata.serialize (Hash_sha1 contents) size]>
          (s ks)
    | _ => s ks
    end.
Proof.
  intros contents size. rewrite putBlob_unfold. cbn [snd].
  rewrite computeChainDataLength_coalesce. rewrite !put_at.
  destruct ks; reflexivity.
Qed.

(** X1: [putBlob] sees the bytes of a blob only: two blobs with the same
    bytes, in whatever buffers (empty ones too) and with whatever hash
    field, give the same metadata and leave the same store. *)
Theorem putBlob_chunking_irrelevant (id : Hash) (b1 b2 : Blob) (s : LocalStore) :
  coalesce (getContents b1) = coalesce (getContents b2) ->
  fst (putBlob id b1 s) = fst (putBlob id b2 s)
  /\ forall ks, snd (putBlob id b1 s) ks = snd (putBlob id b2 s) ks.
Proof.
  intros Heq. split.
  - rewrite !putBlob_unfold. cbn [fst].
    by rewrite !computeChainDataLength_coalesce, Heq.
  - intros ks. rewrite !putBlob_at. by rewrite Heq.
Qed.

Lemma putBlob_chunking_irrelevant_witness :
  coalesce (getContents deadbeef_chunked) = coalesce (getContents deadbeef)
  /\ fst (putBlob Hash_zero deadbeef_chunked Engine.empty)
     = fst (putBlob Hash_zero deadbeef Engine.empty).
Proof.
  exact (conj eq_refl
           (proj1 (putBlob_chunking_irrelevant Hash_zero deadbeef_chunked deadbeef
                     Engine.empty eq_refl))).
Defined.

(** X2: a second [putBlob] under the same [id] replaces both the blob and
    its metadata: the store is as if only the second blob had been put, so
    that putting the same blob twice is putting it once. *)
Theorem putBlob_overwrites (id : Hash) (b1 b2 : Blob) (s : LocalStore) (ks : KeySpace) :
  snd (putBlob id b2 (snd (putBlob id b1 s))) ks = snd (putBlob id b2 s) ks.
Proof.
  rewrite (putBlob_at id b2 (snd (putBlob id b1 s))), (putBlob_at id b2 s).
  rewrite putBlob_at. destruct ks; try reflexivity; apply insert_insert_eq.
Qed.

(** X3: blobs put under ids with different bytes do not disturb each
    other: either order leaves the same store, and each blob is found under
    its own id. *)
Theorem putBlob_commute (id1 id2 : Hash) (b1 b2 : Blob) (s : LocalStore) :
  getBytes id1 <> getBytes id2 ->
  let s12 := snd (putBlob id2 b2 (snd (putBlob id1 b1 s))) in
  let s21 := snd (putBlob id1 b1 (snd (putBlob id2 b2 s))) in
  (forall ks, s12 ks = s21 ks)
  /\ get BlobFamily id1 s12 = get BlobFamily id1 (snd (putBlob id1 b1 s))
  /\ get BlobMetaDataFamily id1 s12
     = get BlobMetaDataFamily id1 (snd (putBlob id1 b1 s))
  /\ get BlobFamily id2 s21 = get BlobFamily id2 (snd (putBlob id2 b2 s))
  /\ get BlobMetaDataFamily id2 s21
     = get BlobMetaDataFamily id2 (snd (putBlob id2 b2 s)).
Proof.
  intros Hne s12 s21.
  assert (forall ks, s12 ks = s21 ks) as Hcomm.
  { intros ks. unfold s12, s21. rewrite !putBlob_at.
    destruct ks; try reflexivity; apply insert_insert_ne; congruence. }
  unfold get, Engine.get.
  refine (conj Hcomm (conj _ (conj _ (conj _ _)))).
  - unfold s12. rewrite (putBlob_at id2). by apply lookup_insert_ne.
  - unfold s12. rewrite (putBlob_at id2). by apply lookup_insert_ne.
  - unfold s21. rewrite (putBlob_at id1). by apply lookup_insert_ne.
  - unfold s21. rewrite (putBlob_at id1). by apply lookup_insert_ne.
Qed.

Lemma putBlob_commute_witness :
  getBytes Hash_zero <> getBytes (Hash_sha1 [])
  /\ forall ks,
       snd (putBlob (Hash_sha1 []) deadbeef_chunked
              (snd (putBlob Hash_zero deadbeef Engine.empty))) ks
       = snd (putBlob Hash_zero deadbeef
                (snd (putBlob (Hash_sha1 []) deadbeef_chunked Engine.empty))) ks.
Proof.
  assert (getBytes Hash_zero <> getBytes (Hash_sha1 [])) as H
    by (vm_compute; discriminate).
  exact (conj H
           (proj1 (putBlob_commute Hash_zero (Hash_sha1 []) deadbeef deadbeef_chunked
                     Engine.empty H))).
Defined.

(** What [putTree] leaves in each key space. *)
Lemma putTree_at (t : Tree) (s : LocalStore) (ks : KeySpace) :
  snd (putTree t s) ks =
    match ks with
    | TreeFamily =>
        <[getBytes (fst (serializeTree t)) := snd (serializeTree t)]> (s ks)
    | _ => s ks
    end.
Proof. unfold putTree, put. cbn [snd]. rewrite put_at. destruct ks; reflexivity. Qed.

(** X4: a key that is missing is not an error: [getBlob], [getBlobMetadata]
    and [getTree] resolve to nothing for it, whatever the deserializer of
    trees; after [clearCaches] every blob and every blob metadata is
    missing in this way. *)
Theorem get_missing (deserializeGitTree : Hash -> list byte -> Try Tree)
    (id : Hash) (s : LocalStore) :
  (get BlobFamily id s = None -> getBlob id s = inr None)
  /\ (get BlobMetaDataFamily id s = None -> getBlobMetadata id s = inr None)
  /\ (get TreeFamily id s = None -> getTree deserializeGitTree id s = inr None)
  /\ getBlob id (clearCaches s) = inr None
  /\ getBlobMetadata id (clearCaches s) = inr None
  /\ hasKey BlobFamily id (clearCaches s) = false
  /\ hasKey BlobMetaDataFamily id (clearCaches s) = false.
Proof.
  unfold getBlob, getBlobMetadata, getTree, getFuture, hasKey, Engine.hasKey, get.
  cbn [then_].
  refine (conj _ (conj _ (conj _ _))); try (by intros ->).
  unfold Engine.get. rewrite !clearCaches_at, !lookup_empty.
  repeat split.
Qed.

Lemma get_missing_witness :
  get TreeFamily Hash_zero Engine.empty = None
  /\ getTree sample_deserializeGitTree Hash_zero Engine.empty = inr None
  /\ getBlob Hash_zero (clearCaches (snd (putBlob Hash_zero deadbeef Engine.empty)))
     = inr None.
Proof.
  pose proof (get_missing sample_deserializeGitTree Hash_zero Engine.empty)
    as (_ & _ & Ht & _).
  pose proof (get_missing sample_deserializeGitTree Hash_zero
                (snd (putBlob Hash_zero deadbeef Engine.empty)))
    as (_ & _ & _ & Hb & _).
  exact (conj eq_refl (conj (Ht eq_refl) Hb)).
Defined.

(** X5: trees outlive [clearCaches]: every read of the [Tree] key space
    ([get], [hasKey], [getTree]) gives after it what it gave before, so a
    tree that [putTree] stored, even with blobs put after it, is still found
    under the key that [putTree] returned. *)
Theorem clearCaches_keeps_trees (deserializeGitTree : Hash -> list byte -> Try Tree)
    (id : Hash) (s : LocalStore) (t : Tree) (blobID : Hash) (b : Blob) :
  get TreeFamily id (clearCaches s) = get TreeFamily id s
  /\ hasKey TreeFamily id (clearCaches s) = hasKey TreeFamily id s
  /\ getTree deserializeGitTree id (clearCaches s) = getTree deserializeGitTree id s
  /\ get TreeFamily (fst (putTree t s))
       (clearCaches (snd (putBlob blobID b (snd (putTree t s)))))
     = Some (snd (serializeTree t)).
Proof.
  assert (forall s0, get TreeFamily id (clearCaches s0) = get TreeFamily id s0) as Hget.
  { intros s0. unfold get, Engine.get. by rewrite clearCaches_at. }
  refine (conj (Hget s) (conj _ (conj _ _))).
  - unfold hasKey, Engine.hasKey. fold (get TreeFamily id (clearCaches s)).
    fold (get TreeFamily id s). by rewrite Hget.
  - unfold getTree, getFuture. fold (get TreeFamily id (clearCaches s)).
    fold (get TreeFamily id s). by rewrite Hget.
  - unfold get, Engine.get. rewrite clearCaches_at, putBlob_at, putTree_at.
    apply lookup_insert_eq.
Qed.

(** X6: [clearCachesAndCompactAll] clears what [clearCaches] clears, the
    key spaces [Blob], [BlobMetadata] and [HgCommitToTree], and keeps [Tree]
    and [HgProxyHash]; [compactStorage] clears nothing; clearing twice is
    clearing once. *)
Theorem clearCachesAndCompactAll_at (s : LocalStore) (ks : KeySpace) :
  clearCachesAndCompactAll s ks =
    match ks with
    | BlobFamily | BlobMetaDataFamily | HgCommitToTreeFamily => ∅
    | TreeFamily | HgProxyHashFamily => s ks
    end
  /\ compactStorage s ks = s ks
  /\ clearCaches (clearCaches s) ks = clearCaches s ks
  /\ clearCachesAndCompactAll s ks = compactStorage (clearCaches s) ks.
Proof.
  assert (compactStorage (clearCaches s) ks = clearCaches s ks) as Hc by reflexivity.
  rewrite Hc, !clearCaches_at.
  unfold clearCachesAndCompactAll, compactStorage, kKeySpaceRecords.
  cbn [fold_left keySpace persistence].
  unfold Engine.clearKeySpace, Engine.compactKeySpace.
  destruct ks; repeat split.
Qed.

(** X7: [WriteBatch::putBlob] on a batch that holds earlier writes, once
    flushed, leaves what [LocalStore::putBlob] leaves on the store with those
    writes applied, and returns the same metadata. *)
Theorem WriteBatch_putBlob_flush (id : Hash) (blob : Blob) (batch : WriteBatch)
    (s : LocalStore) :
  fst (WriteBatch_putBlob id blob batch) = fst (putBlob id blob (Engine.flush batch s))
  /\ Engine.flush (snd (WriteBatch_putBlob id blob batch)) s
     = snd (putBlob id blob (Engine.flush batch s)).
Proof.
  rewrite putBlob_unfold. cbn [fst snd].
  unfold WriteBatch_putBlob, Engine.batch_put_slices, Engine.batch_put.
  cbn [fst snd]. split; [reflexivity|].
  rewrite !flush_app. unfold Engine.flush at 1 2.
  cbn [fold_left Engine.write_keySpace Engine.write_key Engine.write_value concat].
  by rewrite peekSlices_concat.
Qed.

(** X8: [WriteBatch::putTree] on a batch that holds earlier writes, once
    flushed, leaves what [LocalStore::putTree] leaves on the store with those
    writes applied, and returns the same key. *)
Theorem WriteBatch_putTree_flush (t : Tree) (batch : WriteBatch) (s : LocalStore) :
  fst (WriteBatch_putTree t batch) = fst (putTree t (Engine.flush batch s))
  /\ Engine.flush (snd (WriteBatch_putTree t batch)) s
     = snd (putTree t (Engine.flush batch s)).
Proof.
  unfold WriteBatch_putTree, putTree, put, Engine.batch_put. cbn [fst snd].
  split; [reflexivity|]. by rewrite flush_app.
Qed.

(** X9: the key that [putTree] returns is stable: the same tree with that
    key filled in as its hash is stored under the same key with the same
    bytes, and putting a tree a second time changes nothing; a tree whose
    hash has 20 bytes gets a key of 20 bytes. *)
Theorem putTree_key_stable (t : Tree) (s : LocalStore) :
  let key := fst (putTree t s) in
  putTree (mkTree key (getTreeEntries t)) s = putTree t s
  /\ fst (putTree t (snd (putTree t s))) = key
  /\ (forall ks, snd (putTree t (snd (putTree t s))) ks = snd (putTree t s) ks)
  /\ (Hash_valid (Tree_getHash t) -> Hash_valid key).
Proof.
  intros key.
  assert (fst (serializeTree (mkTree key (getTreeEntries t))) = key) as Hkey.
  { unfold key, putTree, serializeTree. cbn [fst snd Tree_getHash getTreeEntries].
    destruct (decide (Tree_getHash t = Hash_zero)) as [Hz|Hz].
    - destruct (decide (Hash_sha1 _ = Hash_zero)) as [E|E]; reflexivity.
    - by rewrite decide_False. }
  refine (conj _ (conj eq_refl (conj _ _))).
  - unfold putTree at 1. rewrite Hkey. reflexivity.
  - intros ks. rewrite putTree_at, (putTree_at t s).
    destruct ks; try reflexivity. apply insert_insert_eq.
  - intros Hv. unfold key, putTree, serializeTree. cbn [fst].
    destruct (decide (Tree_getHash t = Hash_zero)); [apply Hash_sha1_valid | exact Hv].
Qed.

(** X10: trees and blobs are kept apart: [putTree] and [putBlob] in either
    order leave the same store, also when the key of the tree and the id of
    the blob are the same bytes. *)
Theorem putTree_putBlob_commute (t : Tree) (id : Hash) (b : Blob) (s : LocalStore)
    (ks : KeySpace) :
  snd (putTree t (snd (putBlob id b s))) ks = snd (putBlob id b (snd (putTree t s))) ks
  /\ fst (putTree t (snd (putBlob id b s))) = fst (putTree t s)
  /\ fst (putBlob id b (snd (putTree t s))) = fst (putBlob id b s).
Proof.
  refine (conj _ (conj eq_refl _)).
  - rewrite putTree_at, (putBlob_at id b (snd (putTree t s))), putBlob_at, putTree_at.
    destruct ks; reflexivity.
  - rewrite !putBlob_unfold. reflexivity.
Qed.

(** ** Records read back *)

Lemma of_N_to_N (b : byte) : Bytes.of_N (Byte.to_N b) = b.
Proof.
  unfold Bytes.of_N. pose proof (Byte.to_N_bounded b).
  rewrite N.mod_small by lia. by rewrite Byte.of_to_N.
Qed.

Lemma of_N_add_mul (a n : N) : Bytes.of_N (a * 256 + n) = Bytes.of_N n.
Proof.
  unfold Bytes.of_N. by rewrite N.add_comm, N.Div0.mod_add.
Qed.

Lemma be_decode_cons (b : byte) (bs : list byte) :
  Bytes.be_decode (b :: bs)
  = Byte.to_N b * 256 ^ N.of_nat (length bs) + Bytes.be_decode bs.
Proof.
  unfold Bytes.be_decode at 1. cbn [fold_left]. rewrite be_decode_from. lia.
Qed.

Lemma be_decode_bound (bs : list byte) :
  Bytes.be_decode bs < 256 ^ N.of_nat (length bs).
Proof.
  induction bs as [|b bs IH].
  - cbn. lia.
  - rewrite be_decode_cons. cbn [length].
    rewrite Nat2N.inj_succ, N.pow_succ_r'.
    pose proof (Byte.to_N_bounded b). nia.
Qed.

Lemma be_encode_add_mul (k : nat) (a r : N) :
  Bytes.be_encode k (a * 256 ^ N.of_nat k + r) = Bytes.be_encode k r.
Proof.
  revert a. induction k as [|k IH]; intros a; [reflexivity|].
  cbn [Bytes.be_encode]. f_equal.
  - rewrite Nat2N.inj_succ, N.pow_succ_r'.
    replace (a * (256 * 256 ^ N.of_nat k) + r)
      with (a * 256 * 256 ^ N.of_nat k + r) by lia.
    rewrite N.div_add_l by (apply N.pow_nonzero; discriminate).
    apply of_N_add_mul.
  - rewrite Nat2N.inj_succ, N.pow_succ_r'.
    replace (a * (256 * 256 ^ N.of_nat k) + r)
      with (a * 256 * 256 ^ N.of_nat k + r) by lia.
    apply IH.
Qed.

Lemma be_encode_decode (bs : list byte) :
  Bytes.be_encode (length bs) (Bytes.be_decode bs) = bs.
Proof.
  induction bs as [|b bs IH]; [reflexivity|].
  cbn [length Bytes.be_encode]. rewrite be_decode_cons. f_equal.
  - rewrite N.div_add_l by (apply N.pow_nonzero; discriminate).
    rewrite N.div_small by apply be_decode_bound.
    rewrite N.add_0_r. apply of_N_to_N.
  - rewrite be_encode_add_mul. exact IH.
Qed.

(** X11: what [SerializedBlobMetadata::parse] accepts is well formed and
    loses nothing: the hash it returns has 20 bytes, the size is below 2^64,
    and serializing the result gives back the bytes that were parsed. *)
Theorem parse_then_serialize (blobID : Hash) (bytes : list byte) (m : BlobMetadata) :
  SerializedBlobMetadata.parse blobID bytes = inr m ->
  Hash_valid (metadata_sha1 m)
  /\ metadata_size m < 2 ^ 64
  /\ SerializedBlobMetadata.of_metadata m = bytes.
Proof.
  unfold SerializedBlobMetadata.parse.
  destruct (decide (length bytes ≠ SerializedBlobMetadata.SIZE)) as [Hlen|Hlen];
    [discriminate|].
  apply dec_stable in Hlen. intros [= <-]. cbn [metadata_sha1 metadata_size].
  assert (length (take 8 bytes) = 8%nat) as H8.
  { rewrite length_take, Hlen. reflexivity. }
  refine (conj _ (conj _ _)).
  - unfold Hash_valid. cbn [getBytes]. rewrite length_drop, Hlen. reflexivity.
  - pose proof (be_decode_bound (take 8 bytes)) as Hb. rewrite H8 in Hb. exact Hb.
  - unfold SerializedBlobMetadata.of_metadata, SerializedBlobMetadata.serialize.
    cbn [metadata_sha1 metadata_size getBytes].
    rewrite <- H8 at 1. rewrite be_encode_decode. apply take_drop.
Qed.

Lemma parse_then_serialize_witness :
  SerializedBlobMetadata.parse Hash_zero
    (SerializedBlobMetadata.serialize (Hash_sha1 [xde; xad; xbe; xef]) 4)
  = inr (mkBlobMetadata (Hash_sha1 [xde; xad; xbe; xef]) 4)
  /\ metadata_size (mkBlobMetadata (Hash_sha1 [xde; xad; xbe; xef]) 4) < 2 ^ 64.
Proof.
  assert (SerializedBlobMetadata.parse Hash_zero
            (SerializedBlobMetadata.serialize (Hash_sha1 [xde; xad; xbe; xef]) 4)
          = inr (mkBlobMetadata (Hash_sha1 [xde; xad; xbe; xef]) 4)) as H
    by (vm_compute; reflexivity).
  pose proof (parse_then_serialize _ _ _ H) as (_ & Hsize & _).
  exact (conj H Hsize).
Defined.

(** * Further properties of the fake daemon *)

Section DaemonInvariants.

Import FakeEdenfs.
Local Open Scope string_scope.

Variable tryTo_bool : string -> option bool.
Variable errnoStr : Z -> string.
Variable canonicalPath : string -> string.

(** What [stop] does to each part of the daemon. *)
Lemma stop_frame (reason : string) (s : State) :
  honorStop_ (snd (stop reason s)) = honorStop_ s
  /\ status_ (snd (stop reason s)) = status_ s
  /\ loopTerminated (snd (stop reason s)) = loopTerminated s || honorStop_ s
  /\ exists line, xlog (snd (stop reason s)) = (xlog s ++ [(INFO, line)])%list.
Proof.
  unfold stop, bind, XLOG, terminateLoopSoon.
  destruct (honorStop_ s) eqn:Hh; cbn; rewrite ?Hh.
  - rewrite orb_true_r. repeat split. eexists. reflexivity.
  - rewrite orb_false_r. repeat split. eexists. reflexivity.
Qed.

(** What [setOption] does to each part of the daemon. *)
Lemma setOption_frame (name value : string) (s : State) :
  let r := setOption tryTo_bool name value s in
  loopTerminated (snd r) = loopTerminated s
  /\ (name <> "honor_stop" -> honorStop_ (snd r) = honorStop_ s)
  /\ (name <> "status" -> status_ (snd r) = status_ s)
  /\ (name = "honor_stop" ->
        honorStop_ (snd r) = default (honorStop_ s) (tryTo_bool value))
  /\ match fst r with
     | inl ex =>
         exists msg,
           ex = invalid_argument msg
           /\ snd r = mkState (honorStop_ s) (status_ s) (loopTerminated s)
                        (xlog s ++ [(ERR, msg)])
     | inr _ => xlog (snd r) = xlog s
     end.
Proof.
  unfold setOption.
  destruct (decide (name = "honor_stop")) as [Hn|Hn].
  { destruct (tryTo_bool value) as [b|]; cbn.
    - repeat split; congruence.
    - repeat split; try congruence. eexists. split; reflexivity. }
  destruct (decide (name = "status")) as [Hs|Hs].
  { repeat case_decide; cbn; repeat split; try congruence;
      eexists; split; reflexivity. }
  cbn. repeat split; congruence.
Qed.

(** X12: a [setOption] that throws has changed nothing but the log: the
    exception is [std::invalid_argument], its message is the one line added
    at ERR, and [honor_stop], the status and the event loop are as before;
    it throws for the names [honor_stop] and [status] only.  A [setOption]
    that returns has logged nothing. *)
Theorem setOption_failure_logged (name value : string) (s : State) :
  match fst (setOption tryTo_bool name value s) with
  | inl ex =>
      (name = "honor_stop" \/ name = "status")
      /\ ex = invalid_argument
                ("invalid value for " ++ name ++ " setting: " ++ dquote ++ value
                   ++ dquote)
      /\ snd (setOption tryTo_bool name value s)
         = mkState (honorStop_ s) (status_ s) (loopTerminated s)
             (xlog s
                ++ [(ERR,
                     "invalid value for " ++ name ++ " setting: " ++ dquote ++ value
                       ++ dquote)])
  | inr _ =>
      xlog (snd (setOption tryTo_bool name value s)) = xlog s
      /\ loopTerminated (snd (setOption tryTo_bool name value s)) = loopTerminated s
  end.
Proof.
  unfold setOption.
  destruct (decide (name = "honor_stop")) as [Hn|Hn].
  { destruct (tryTo_bool value) as [b|]; cbn; repeat split; auto. }
  destruct (decide (name = "status")) as [Hs|Hs].
  { repeat case_decide; cbn; repeat split; auto. }
  cbn. repeat split.
Qed.

Lemma dispatch_terminated (e : Event) (s : State) :
  loopTerminated (dispatch tryTo_bool e s) = loopTerminated s
  \/ ShutdownRequest e /\ honorStop_ s = true
     /\ loopTerminated (dispatch tryTo_bool e s) = true.
Proof.
  assert (forall reason e', ShutdownRequest e' ->
            loopTerminated (snd (stop reason s)) = loopTerminated s
            \/ ShutdownRequest e' /\ honorStop_ s = true
               /\ loopTerminated (snd (stop reason s)) = true) as Hstop.
  { intros reason e' He'. destruct (stop_frame reason s) as (_ & _ & Ht & _).
    rewrite Ht. destruct (honorStop_ s).
    - right. rewrite orb_true_r. auto.
    - left. apply orb_false_r. }
  destruct e as [r|sig].
  - destruct r; cbn [dispatch]; try (by left).
    + left. apply (setOption_frame name value s).
    + apply Hstop. constructor.
    + apply Hstop. constructor.
  - cbn [dispatch]. unfold signalReceived.
    destruct (decide (sig = SIGINT)) as [->|]; [apply Hstop; constructor|].
    destruct (decide (sig = SIGTERM)) as [->|]; [apply Hstop; constructor|].
    by left.
Qed.

Lemma dispatch_honorStop (e : Event) (s : State) :
  (forall value, e <> thrift (call_setOption "honor_stop" value)) ->
  honorStop_ (dispatch tryTo_bool e s) = honorStop_ s.
Proof.
  intros Hne. destruct e as [r|sig].
  - destruct r; cbn [dispatch]; try reflexivity.
    + apply (setOption_frame name value s). intros ->. by eapply Hne.
    + apply stop_frame.
    + apply stop_frame.
  - cbn [dispatch]. unfold signalReceived.
    repeat case_decide; try apply stop_frame. reflexivity.
Qed.

Lemma dispatch_status (e : Event) (s : State) :
  (forall value, e <> thrift (call_setOption "status" value)) ->
  status_ (dispatch tryTo_bool e s) = status_ s.
Proof.
  intros Hne. destruct e as [r|sig].
  - destruct r; cbn [dispatch]; try reflexivity.
    + apply (setOption_frame name value s). intros ->. by eapply Hne.
    + apply stop_frame.
    + apply stop_frame.
  - cbn [dispatch]. unfold signalReceived.
    repeat case_decide; try apply stop_frame. reflexivity.
Qed.

(** X13: the event loop ends through a shutdown request that is honoured
    and through nothing else: an event that ends the loop is [shutdown],
    [initiateShutdown], SIGINT or SIGTERM and met [honor_stop] true; and no
    event brings an ended loop back. *)
Theorem loop_ends_by_honoured_shutdown_only (e : Event) (s : State) :
  (loopTerminated s = false ->
   loopTerminated (dispatch tryTo_bool e s) = true ->
   ShutdownRequest e /\ honorStop_ s = true)
  /\ (loopTerminated s = true -> loopTerminated (dispatch tryTo_bool e s) = true).
Proof.
  destruct (dispatch_terminated e s) as [Hsame|(He & Hh & Ht)].
  - rewrite Hsame. split; [congruence | auto].
  - split; auto.
Qed.

(** X14: the status that [getStatus] reports changes through
    [setOption("status", _)] only, and [honor_stop] through
    [setOption("honor_stop", _)] only; a shutdown that is honoured leaves the
    status as it was. *)
Theorem dispatch_frame (e : Event) (s : State) :
  ((forall value, e <> thrift (call_setOption "status" value)) ->
   fst (getStatus (dispatch tryTo_bool e s)) = fst (getStatus s))
  /\ ((forall value, e <> thrift (call_setOption "honor_stop" value)) ->
      honorStop_ (dispatch tryTo_bool e s) = honorStop_ s)
  /\ (ShutdownRequest e -> status_ (dispatch tryTo_bool e s) = status_ s).
Proof.
  refine (conj _ (conj (dispatch_honorStop e s) _)).
  - intros Hne. unfold getStatus. cbn [fst]. f_equal. by apply dispatch_status.
  - intros He. apply dispatch_status. intros value ->. inversion He.
Qed.

(** X15: an event adds at most one line to the log and takes none away;
    a shutdown request adds one line at INFO, be it honoured or ignored. *)
Theorem dispatch_log (e : Event) (s : State) :
  exists lines,
    xlog (dispatch tryTo_bool e s) = (xlog s ++ lines)%list
    /\ (length lines <= 1)%nat
    /\ (ShutdownRequest e -> exists line, lines = [(INFO, line)]).
Proof.
  assert (forall reason,
            exists lines,
              xlog (snd (stop reason s)) = (xlog s ++ lines)%list
              /\ (length lines <= 1)%nat
              /\ (ShutdownRequest e -> exists line, lines = [(INFO, line)])) as Hstop.
  { intros reason. destruct (stop_frame reason s) as (_ & _ & _ & line & Hl).
    exists [(INFO, line)]. split; [exact Hl|]. split; [cbn; lia | eauto]. }
  assert (exists lines,
            xlog s = (xlog s ++ lines)%list /\ (length lines <= 1)%nat
            /\ (~ ShutdownRequest e ->
                ShutdownRequest e -> exists line, lines = [(INFO, line)])) as Hnone.
  { exists []. rewrite app_nil_r. split; [reflexivity|].
    split; [cbn; lia | contradiction]. }
  destruct e as [r|sig].
  - destruct r; cbn [dispatch]; try apply Hstop;
      try (destruct Hnone as (l & H1 & H2 & H3); exists l;
           split; [exact H1|]; split; [exact H2|]; apply H3; inversion 1).
    pose proof (setOption_frame name value s) as (_ & _ & _ & _ & Hr).
    cbn zeta in Hr.
    destruct (fst (setOption tryTo_bool name value s)) as [ex|[]].
    + destruct Hr as (msg & _ & ->). exists [(ERR, msg)].
      split; [reflexivity|]. split; [cbn; lia | inversion 1].
    + rewrite Hr. exists []. rewrite app_nil_r.
      split; [reflexivity|]. split; [cbn; lia | inversion 1].
  - cbn [dispatch]. unfold signalReceived.
    destruct (decide (sig = SIGINT)); [apply Hstop|].
    destruct (decide (sig = SIGTERM)); [apply Hstop|].
    eexists [_]. split; [reflexivity|]. split; [cbn; lia|].
    inversion 1; congruence.
Qed.

Lemma shutdown_honoured (e : Event) (s : State) :
  ShutdownRequest e -> honorStop_ s = true ->
  loopTerminated (dispatch tryTo_bool e s) = true.
Proof.
  intros He Hh. destruct (shutdown_request_stop tryTo_bool e s He) as [reason ->].
  destruct (stop_frame reason s) as (_ & _ & -> & _). rewrite Hh. apply orb_true_r.
Qed.

Lemma dispatch_stays_ignoring (e : Event) (s : State) :
  honorStop_ s = false -> loopTerminated s = false ->
  (forall value,
     e = thrift (call_setOption "honor_stop" value) -> tryTo_bool value <> Some true) ->
  honorStop_ (dispatch tryTo_bool e s) = false
  /\ loopTerminated (dispatch tryTo_bool e s) = false.
Proof.
  intros Hh Ht He. split.
  - destruct e as [[| name value | | | |]|sig];
      try (rewrite dispatch_honorStop by discriminate; exact Hh).
    destruct (decide (name = "honor_stop")) as [->|Hn].
    + cbn [dispatch].
      destruct (setOption_frame "honor_stop" value s) as (_ & _ & _ & Hset & _).
      cbn zeta in Hset. rewrite Hset by reflexivity.
      specialize (He value eq_refl).
      destruct (tryTo_bool value) as [[|]|]; cbn; congruence.
    + rewrite dispatch_honorStop by congruence. exact Hh.
  - destruct (dispatch_terminated e s) as [->|(_ & Hh' & _)]; congruence.
Qed.

Lemma loop_stays_ignoring (evs : list Event) (s : State) :
  honorStop_ s = false -> loopTerminated s = false ->
  Forall (fun e =>
            forall value,
              e = thrift (call_setOption "honor_stop" value) ->
              tryTo_bool value <> Some true) evs ->
  fst (loopForever tryTo_bool evs s) = false.
Proof.
  intros Hh Ht Hevs. revert s Hh Ht.
  induction Hevs as [|e evs He _ IH]; intros s Hh Ht; [reflexivity|].
  cbn [loopForever].
  destruct (dispatch_stays_ignoring e s Hh Ht He) as [Hh' Ht'].
  rewrite Ht'. by apply IH.
Qed.

(** X16: a daemon started with [--ignoreStop] that got through its startup
    does not return from [main], whatever signals and requests reach it, as
    long as no [setOption] turns [honor_stop] on. *)
Theorem ignoreStop_keeps_serving (env : Environment) :
  FLAGS_edenDir env <> EmptyString ->
  try_lock env = true ->
  unlink_rc env = 0%Z \/ errno env = ENOENT ->
  FLAGS_ignoreStop env = true ->
  Forall (fun e =>
            forall value,
              e = thrift (call_setOption "honor_stop" value) ->
              tryTo_bool value <> Some true) (events env) ->
  main tryTo_bool errnoStr canonicalPath env = Serving.
Proof.
  intros Hdir Hlock Hrm Hignore Hevs. unfold main, acquireLock, run.
  rewrite decide_False by exact Hdir.
  unfold try_lock in Hlock.
  destruct (lockFile env) as [what|what|locked]; try discriminate Hlock.
  rewrite Hlock. cbn [negb].
  rewrite decide_False by (intros [Hrc Herr]; destruct Hrm; contradiction).
  rewrite Hignore.
  rewrite loop_stays_ignoring; [reflexivity | reflexivity | reflexivity | exact Hevs].
Qed.

(** X17: with [honor_stop] on, the first shutdown request ends the loop,
    and the events behind it are not served: the daemon is left as that
    request left it, provided that no event before it was a shutdown request
    or a [setOption("honor_stop", _)]. *)
Theorem honoured_shutdown_cuts (pre post : list Event) (e : Event) (s : State) :
  honorStop_ s = true ->
  loopTerminated s = false ->
  Forall (fun e' =>
            ~ ShutdownRequest e'
            /\ forall value, e' <> thrift (call_setOption "honor_stop" value)) pre ->
  ShutdownRequest e ->
  loopForever tryTo_bool (pre ++ e :: post) s
  = (true,
     dispatch tryTo_bool e (fold_left (fun st e' => dispatch tryTo_bool e' st) pre s)).
Proof.
  intros Hh Ht Hpre He. revert s Hh Ht.
  induction Hpre as [|e' pre [Hns Hnh] _ IH]; intros s Hh Ht.
  - cbn [app fold_left loopForever]. by rewrite shutdown_honoured.
  - cbn [app fold_left loopForever].
    assert (loopTerminated (dispatch tryTo_bool e' s) = false) as Ht'.
    { destruct (dispatch_terminated e' s) as [->|(Hs & _)]; [exact Ht | contradiction]. }
    rewrite Ht'. apply IH; [|exact Ht'].
    by rewrite dispatch_honorStop.
Qed.

End DaemonInvariants.

Lemma ignoreStop_keeps_serving_witness :
  FakeEdenfs.main sample_tryTo_bool sample_errnoStr id ignoring_environment
  = FakeEdenfs.Serving.
Proof.
  apply (ignoreStop_keeps_serving sample_tryTo_bool sample_errnoStr id
           ignoring_environment).
  - discriminate.
  - reflexivity.
  - left. reflexivity.
  - reflexivity.
  - repeat constructor; intros value [= <-]; vm_compute; discriminate.
Defined.

Lemma honoured_shutdown_cuts_witness :
  FakeEdenfs.loopForever sample_tryTo_bool
    ([FakeEdenfs.thrift FakeEdenfs.call_getStatus;
      FakeEdenfs.thrift (FakeEdenfs.call_setOption "status" "stopping")]
       ++ FakeEdenfs.signal FakeEdenfs.SIGTERM
       :: [FakeEdenfs.thrift (FakeEdenfs.call_setOption "status" "alive")])
    FakeEdenfs.initial
  = (true,
     FakeEdenfs.mkState true FakeEdenfs.STOPPING true
       [(FakeEdenfs.INFO, "stopping: received SIGTERM"%string)]).
Proof.
  refine (honoured_shutdown_cuts sample_tryTo_bool
            [FakeEdenfs.thrift FakeEdenfs.call_getStatus;
             FakeEdenfs.thrift (FakeEdenfs.call_setOption "status" "stopping")]
            [FakeEdenfs.thrift (FakeEdenfs.call_setOption "status" "alive")]
            (FakeEdenfs.signal FakeEdenfs.SIGTERM) FakeEdenfs.initial
            eq_refl eq_refl _ sigterm).
  repeat constructor; try (intros H; inversion H); try discriminate.
Defined.

(** A reason with a NUL in it is logged up to the NUL, as [c_str] cuts it;
    an exception from the lock file aborts [main]. *)
Example initiateShutdown_reason_cut :
  FakeEdenfs.xlog
    (FakeEdenfs.dispatch sample_tryTo_bool
       (FakeEdenfs.thrift
          (FakeEdenfs.call_initiateShutdown
             (String "o" (String "k" (String Ascii.zero "rest")))))
       FakeEdenfs.initial)
  = [(FakeEdenfs.INFO,
      "stopping: received initiateShutdown() thrift requested: ok"%string)].
Proof. vm_compute. reflexivity. Qed.

Example main_lock_throws :
  FakeEdenfs.main sample_tryTo_bool sample_errnoStr id
    (FakeEdenfs.mkEnvironment "/tmp/eden" false
       (FakeEdenfs.try_lock_throws "flock failed") 0 0
       [FakeEdenfs.thrift FakeEdenfs.call_shutdown])
  = FakeEdenfs.Aborted "flock failed".
Proof. vm_compute. reflexivity. Qed.
